(** * serverConcurrent: a dual-listener web server with coordinated shutdown

    A shallow embedding of [server.go] and of the entry point [main].
    The file follows the layout of the Go source:

    - Go values the program manipulates: [error] values, panics, contexts;
    - [generateRandomString] and the three request handlers;
    - the two listener tasks [httpServer] and [httpsServer]: route table,
      [http.Server] configuration, accept-loop goroutine and [select];
    - [Server.Run]: the errgroup, the signal context and the watcher,
      as a step function over the events of the environment.

    The parts of the Go standard library the program calls
    ([crypto/rand], [net/http], [context], [errgroup]) are modelled by the
    definitions whose comment names the library function they stand for. *)

From Stdlib Require Import ZArith List String Ascii Bool Lia.
Import ListNotations.
Local Open Scope string_scope.
Local Open Scope list_scope.
Local Open Scope Z_scope.

Set Implicit Arguments.

(* ===================================================================== *)
(** ** Go values *)
(* ===================================================================== *)

(** Non-nil values of Go's [error] interface that the program can meet.
    [Wrapped] is an error built with the [%w] verb: it is a different
    value from the one it wraps, but [errors.Is] looks through it. *)
Inductive error : Type :=
| ErrServerClosed                           (* http.ErrServerClosed *)
| Canceled                                  (* context.Canceled *)
| DeadlineExceeded                          (* context.DeadlineExceeded *)
| OpError (msg : string)                    (* net.OpError, io errors, ... *)
| Wrapped (msg : string) (inner : error).

(** A Go variable of type [error]: [None] is [nil]. *)
Definition goerror := option error.

Fixpoint error_eqb (a b : error) : bool :=
  match a, b with
  | ErrServerClosed, ErrServerClosed => true
  | Canceled, Canceled => true
  | DeadlineExceeded, DeadlineExceeded => true
  | OpError m, OpError m' => String.eqb m m'
  | Wrapped m e, Wrapped m' e' => String.eqb m m' && error_eqb e e'
  | _, _ => false
  end.

(** [errors.Is(err, target)] for a sentinel [target]: compare, then unwrap. *)
Fixpoint errors_Is (err target : error) : bool :=
  error_eqb err target ||
  match err with
  | Wrapped _ inner => errors_Is inner target
  | _ => false
  end.

(** Run-time panics of the program. *)
Inductive panic : Type :=
| NilDereference                            (* invalid memory address or nil pointer dereference *)
| IndexOutOfRange (i len : Z)               (* index out of range [i] with length len *)
| MakeSliceLen                              (* makeslice: len out of range *)
| RandIntArgument                           (* crypto/rand: argument to Int is <= 0 *)
| SendOnClosedChannel                       (* send on closed channel *)
| PanicValue (msg : string).                (* panic(msg) *)

(** The result of running a piece of Go code that may panic. *)
Inductive outcome (A : Type) : Type :=
| Ok (a : A)
| Panic (p : panic).
Arguments Ok {A} a.
Arguments Panic {A} p.

(* ===================================================================== *)
(** ** The random source: crypto/rand *)
(* ===================================================================== *)

(** The [io.Reader] handed to [rand.Int]. The source imports [crypto/rand]
    and passes [rand.Reader], the operating system's secure generator. *)
Inductive Reader : Type :=
| crypto_rand_Reader.

(** The state of the random source: [tape k] is what the [k]-th call of
    [rand.Int] gets from the reader ([None]: the read fails), [pos] counts
    the calls made so far, and [drawn] logs every call, with its reader
    and its bound. *)
Record Entropy : Type := mkEntropy {
  tape : nat -> option Z;
  pos : nat;
  drawn : list (Reader * Z)
}.

(** Code that reads the random source and may panic. *)
Definition M (A : Type) : Type := Entropy -> outcome A * Entropy.

Definition mret {A} (a : A) : M A := fun st => (Ok a, st).

Definition mbind {A B} (c : M A) (k : A -> M B) : M B :=
  fun st =>
    match c st with
    | (Ok a, st') => k a st'
    | (Panic p, st') => (Panic p, st')
    end.

Definition mpanic {A} (p : panic) : M A := fun st => (Panic p, st).

Definition lift {A} (o : outcome A) : M A := fun st => (o, st).

Declare Scope go_scope.
Delimit Scope go_scope with go.
Notation "x <- c ;; k" := (mbind c (fun x => k))
  (at level 61, c at next level, right associativity) : go_scope.
Notation "' pat <- c ;; k" := (mbind c (fun x => match x with pat => k end))
  (at level 61, pat pattern, c at next level, right associativity) : go_scope.
Local Open Scope go_scope.

(** [rand.Int(reader, max)]: a pair of a [*big.Int] ([None] is the nil
    pointer) and an error. On a failed read it returns [(nil, err)]; it
    panics when [max <= 0]. *)
Definition rand_Int (r : Reader) (max : Z) : M (option Z * goerror) :=
  fun st =>
    if max <=? 0 then (Panic RandIntArgument, st)
    else
      let st' := {| tape := tape st; pos := S (pos st);
                    drawn := drawn st ++ [(r, max)] |} in
      match tape st (pos st) with
      | Some v => (Ok (Some v, None), st')
      | None => (Ok (None, Some (OpError "crypto/rand: read failed")), st')
      end.

(** The contract of [rand.Int]: a successful call returns a value in
    [[0, max)]. [reads_in_range] says so of the values on the tape,
    [reads_succeed k] that the next [k] reads do not fail. *)
Definition reads_in_range (max : Z) (st : Entropy) : Prop :=
  forall k v, tape st k = Some v -> 0 <= v < max.

Definition reads_succeed (k : nat) (st : Entropy) : Prop :=
  forall i, (i < k)%nat -> tape st (pos st + i) <> None.

(** The [Int64] method of [big.Int]: the low 64 bits as a signed integer; a nil
    receiver is dereferenced. *)
Definition wrap64 (v : Z) : Z := (v + 2 ^ 63) mod 2 ^ 64 - 2 ^ 63.

Definition Int64 (num : option Z) : outcome Z :=
  match num with
  | Some v => Ok (wrap64 v)
  | None => Panic NilDereference
  end.

(* ===================================================================== *)
(** ** generateRandomString *)
(* ===================================================================== *)

Definition letters : string :=
  "0123456789ABCDEFGHIJKLMNOPQRSTUVWXYZabcdefghijklmnopqrstuvwxyz-".

Definition len (s : string) : Z := Z.of_nat (String.length s).

(** [s[k]] on a string, with Go's bounds check. *)
Definition index (s : string) (k : Z) : outcome ascii :=
  if (k <? 0) || (len s <=? k) then Panic (IndexOutOfRange k (len s))
  else match String.get (Z.to_nat k) s with
       | Some c => Ok c
       | None => Panic (IndexOutOfRange k (len s))
       end.

(** [make([]byte, n)]. *)
Definition make_bytes (n : Z) : outcome (list ascii) :=
  if n <? 0 then Panic MakeSliceLen
  else Ok (repeat zero (Z.to_nat n)).

(** [ret[i] = c] on a slice, with Go's bounds check. *)
Fixpoint store_nat (l : list ascii) (i : nat) (c : ascii) : list ascii :=
  match l, i with
  | [], _ => []
  | _ :: t, O => c :: t
  | h :: t, S i' => h :: store_nat t i' c
  end.

Definition store (l : list ascii) (i : Z) (c : ascii) : outcome (list ascii) :=
  if (i <? 0) || (Z.of_nat (List.length l) <=? i)
  then Panic (IndexOutOfRange i (Z.of_nat (List.length l)))
  else Ok (store_nat l (Z.to_nat i) c).

(** The body of [for i := 0; i < n; i++], run for the [k] iterations that
    remain when the counter is [i]. The error of [rand.Int] is dropped
    ([num, _ := ...]). *)
Fixpoint fill (k : nat) (i : Z) (ret : list ascii) : M (list ascii) :=
  match k with
  | O => mret ret
  | S k' =>
      '(num, _) <- rand_Int crypto_rand_Reader (len letters) ;;
      j <- lift (Int64 num) ;;
      c <- lift (index letters j) ;;
      ret' <- lift (store ret i c) ;;
      fill k' (i + 1) ret'
  end.

Definition generateRandomString (n : Z) : M string :=
  ret <- lift (make_bytes n) ;;
  ret' <- fill (Z.to_nat n) 0 ret ;;
  mret (string_of_list_ascii ret').

(* ===================================================================== *)
(** ** Requests, responses and the handlers *)
(* ===================================================================== *)

Record Request : Type := mkRequest {
  Method : string;
  Path : string                             (* r.URL.Path *)
}.

Record Response : Type := mkResponse {
  StatusCode : Z;
  Body : string
}.

Definition StatusOK : Z := 200.
Definition StatusNotFound : Z := 404.
Definition StatusMethodNotAllowed : Z := 405.

(** The files the file server can see: the content stored under a name. *)
Definition FileSystem : Type := string -> option string.

(** [httpHandler]: [fmt.Fprintf(w, "Hello World %s", generateRandomString(10))].
    The first write sends the implicit status 200. *)
Definition httpHandler (r : Request) : M Response :=
  tok <- generateRandomString 10 ;;
  mret {| StatusCode := StatusOK; Body := String.append "Hello World " tok |}.

(** [errorHandler]: [panic("simulated server crash")]. *)
Definition errorHandler (r : Request) : M Response :=
  mpanic (PanicValue "simulated server crash").

(** The values of type [http.Handler] the program builds. *)
Inductive Handler : Type :=
| HandlerFunc (f : Request -> M Response)
| StripPrefix (prefix : string) (h : Handler)
| FileServer (root : string).               (* http.FileServer(http.Dir(root)) *)

(** [strings.TrimPrefix]. *)
Definition TrimPrefix (s p : string) : string :=
  if String.prefix p s
  then String.substring (String.length p) (String.length s - String.length p) s
  else s.

Definition NotFound : Response :=
  {| StatusCode := StatusNotFound; Body := "404 page not found" |}.

Definition ends_with_slash (p : string) : bool :=
  match String.get (String.length p - 1) p with
  | Some c => (0 <? String.length p)%nat && Ascii.eqb c "/"%char
  | None => false
  end.

(** [filepath.Join(dir, name)] for a [name] that starts with a slash. *)
Definition Join (dir name : string) : string :=
  String.append
    (if ends_with_slash dir then String.substring 0 (String.length dir - 1) dir
     else dir)
    name.

(** [h.ServeHTTP(w, r)]. The file server opens the file named by the
    directory joined with the request path (made absolute); directory
    listings, redirects and range requests are left out. *)
Fixpoint ServeHTTP (fs : FileSystem) (h : Handler) (r : Request) : M Response :=
  match h with
  | HandlerFunc f => f r
  | StripPrefix prefix h' =>
      let p := TrimPrefix (Path r) prefix in
      if (String.length p <? String.length (Path r))%nat
      then ServeHTTP fs h' {| Method := Method r; Path := p |}
      else mret NotFound
  | FileServer root =>
      let upath :=
        if String.prefix "/" (Path r) then Path r else String.append "/" (Path r) in
      match fs (Join root upath) with
      | Some content => mret {| StatusCode := StatusOK; Body := content |}
      | None => mret NotFound
      end
  end.

(* ===================================================================== *)
(** ** http.ServeMux *)
(* ===================================================================== *)

(** A mux is the list of the patterns registered with [Handle] and
    [HandleFunc], in registration order. *)
Definition ServeMux : Type := list (string * Handler).

Definition NewServeMux : ServeMux := [].

Definition Handle (mux : ServeMux) (pattern : string) (h : Handler) : ServeMux :=
  mux ++ [(pattern, h)].

Definition HandleFunc (mux : ServeMux) (pattern : string)
    (f : Request -> M Response) : ServeMux :=
  Handle mux pattern (HandlerFunc f).

(** A pattern is [[METHOD ]PATH]: the method is what precedes the first
    space, if there is one. *)
Fixpoint cut_space (s : string) : option (string * string) :=
  match s with
  | EmptyString => None
  | String c rest =>
      if Ascii.eqb c " "%char then Some (EmptyString, rest)
      else match cut_space rest with
           | Some (m, p) => Some (String c m, p)
           | None => None
           end
  end.

Definition pattern_method (pattern : string) : string :=
  match cut_space pattern with
  | Some (m, _) => m
  | None => ""
  end.

Definition pattern_path (pattern : string) : string :=
  match cut_space pattern with
  | Some (_, p) => p
  | None => pattern
  end.

(** A path pattern that ends in a slash matches every path below it; any
    other pattern matches that path only. *)
Definition path_matches (ppath path : string) : bool :=
  if ends_with_slash ppath then String.prefix ppath path
  else String.eqb ppath path.

(** A pattern without a method matches every method; [GET] also matches
    [HEAD]. *)
Definition method_matches (pmethod method : string) : bool :=
  String.eqb pmethod "" || String.eqb pmethod method ||
  (String.eqb pmethod "GET" && String.eqb method "HEAD").

Definition pattern_matches (pattern : string) (r : Request) : bool :=
  method_matches (pattern_method pattern) (Method r) &&
  path_matches (pattern_path pattern) (Path r).

(** Of two patterns that match a request the more specific one wins: for
    patterns without wildcards that is the one with the longer path and,
    at equal paths, the one that names a method. *)
Definition more_specific (p q : string) : bool :=
  let lp := String.length (pattern_path p) in
  let lq := String.length (pattern_path q) in
  (lq <? lp)%nat ||
  ((lq =? lp)%nat && negb (String.eqb (pattern_method p) "")
                  && String.eqb (pattern_method q) "").

Fixpoint best_match (mux : ServeMux) (r : Request)
    (best : option (string * Handler)) : option (string * Handler) :=
  match mux with
  | [] => best
  | (pattern, h) :: rest =>
      if pattern_matches pattern r then
        match best with
        | Some (bp, _) =>
            if more_specific pattern bp then best_match rest r (Some (pattern, h))
            else best_match rest r best
        | None => best_match rest r (Some (pattern, h))
        end
      else best_match rest r best
  end.

(** [mux.Handler(r)]: the pattern that serves the request and its
    handler, for a request whose path is in canonical form. The
    redirections of [ServeMux] (301 to the cleaned path, and to the path
    with a trailing slash added when only that one is registered) are
    not part of this model. *)
Definition mux_Handler (mux : ServeMux) (r : Request) : option (string * Handler) :=
  best_match mux r None.


(** [mux.ServeHTTP]: without a matching pattern the reply is 405 when some
    pattern matches the path under another method, 404 otherwise. *)
Definition mux_ServeHTTP (fs : FileSystem) (mux : ServeMux) (r : Request) : M Response :=
  match mux_Handler mux r with
  | Some (_, h) => ServeHTTP fs h r
  | None =>
      if existsb (fun e => path_matches (pattern_path (fst e)) (Path r)) mux
      then mret {| StatusCode := StatusMethodNotAllowed; Body := "Method Not Allowed" |}
      else mret NotFound
  end.

(** What the client of one connection observes for one request. The
    goroutine that serves a connection runs the handler under a deferred
    [recover]: a panic of the handler is logged, no reply is written and
    that connection is closed. *)
Inductive Reply : Type :=
| Replied (resp : Response)
| ConnectionClosed (recovered : panic).

Definition conn_serve (fs : FileSystem) (mux : ServeMux) (r : Request)
    (st : Entropy) : Reply * Entropy :=
  match mux_ServeHTTP fs mux r st with
  | (Ok resp, st') => (Replied resp, st')
  | (Panic p, st') => (ConnectionClosed p, st')
  end.

(* ===================================================================== *)
(** ** The two listeners: what they are built from *)
(* ===================================================================== *)

(** [time.Duration] counts nanoseconds. *)
Definition Second : Z := 1000000000.

(** The fields of [http.Server] that the program sets. *)
Record http_Server : Type := mk_http_Server {
  Addr : string;
  Mux : ServeMux;                           (* the Handler field *)
  ReadTimeout : Z;
  WriteTimeout : Z;
  IdleTimeout : Z
}.

(** How the accept-loop goroutine starts the server. [ListenAndServe]
    listens on the TCP address and serves HTTP over the accepted
    connections as they are; [ListenAndServeTLS] wraps each of them in a
    TLS session first. *)
Inductive ServeCall : Type :=
| ListenAndServe
| ListenAndServeTLS (certFile keyFile : string).

Inductive Transport : Type :=
| Plaintext
| EncryptedTLS.

Definition transport_of (c : ServeCall) : Transport :=
  match c with
  | ListenAndServe => Plaintext
  | ListenAndServeTLS _ _ => EncryptedTLS
  end.

Definition acme_prefix : string := "/.well-known/acme-challenge/".
Definition acme_dir : string := "/challenge/.well-known/acme-challenge/".

Module httpServer.
(** Lines 56-59. *)
Definition mux : ServeMux :=
  let mux := NewServeMux in
  let mux := HandleFunc mux "GET /" httpHandler in
  let mux := HandleFunc mux "GET /error" errorHandler in
  Handle mux "GET /.well-known/acme-challenge/"
    (StripPrefix acme_prefix (FileServer acme_dir)).

(** Lines 61-67. *)
Definition server (addr : string) : http_Server :=
  {| Addr := addr;
     Mux := mux;
     ReadTimeout := 5 * Second;
     WriteTimeout := 10 * Second;
     IdleTimeout := 15 * Second |}.

(** Line 75: the call that serves, and the test on what it returns:
    [err != nil && err != http.ErrServerClosed]. The result is the
    value sent on [errChan], if one is sent. *)
Definition serve_call : ServeCall := ListenAndServe.

Definition report (err : goerror) : option error :=
  match err with
  | Some e => if negb (error_eqb e ErrServerClosed) then Some e else None
  | None => None
  end.
End httpServer.

Module httpsServer.
(** Lines 106-108. *)
Definition mux : ServeMux :=
  let mux := NewServeMux in
  let mux := HandleFunc mux "GET /" httpHandler in
  Handle mux "GET /.well-known/acme-challenge/"
    (StripPrefix acme_prefix (FileServer acme_dir)).

(** Lines 110-116. *)
Definition server (addr : string) : http_Server :=
  {| Addr := addr;
     Mux := mux;
     ReadTimeout := 5 * Second;
     WriteTimeout := 10 * Second;
     IdleTimeout := 15 * Second |}.

(** Line 122: [httpServer.ListenAndServe()] again, and
    [err != nil && !errors.Is(err, http.ErrServerClosed)]. *)
Definition serve_call : ServeCall := ListenAndServe.

Definition report (err : goerror) : option error :=
  match err with
  | Some e => if negb (errors_Is e ErrServerClosed) then Some e else None
  | None => None
  end.
End httpsServer.

(** The two listener tasks of [Run]. *)
Inductive TaskId : Type :=
| HTTP                                      (* g.Go(... httpServer(gctx, s.httpAddr)) *)
| HTTPS.                                    (* g.Go(... httpsServer(gctx, s.httpsAddr)) *)

Definition TaskId_eqb (i j : TaskId) : bool :=
  match i, j with
  | HTTP, HTTP | HTTPS, HTTPS => true
  | _, _ => false
  end.

Record Server : Type := mkServer {
  httpAddr : string;
  httpsAddr : string
}.

Definition NewServer (httpAddr httpsAddr : string) : Server :=
  {| httpAddr := httpAddr; httpsAddr := httpsAddr |}.

Definition task_server (s : Server) (i : TaskId) : http_Server :=
  match i with
  | HTTP => httpServer.server (httpAddr s)
  | HTTPS => httpsServer.server (httpsAddr s)
  end.

Definition task_serve_call (i : TaskId) : ServeCall :=
  match i with
  | HTTP => httpServer.serve_call
  | HTTPS => httpsServer.serve_call
  end.

Definition task_report (i : TaskId) : goerror -> option error :=
  match i with
  | HTTP => httpServer.report
  | HTTPS => httpsServer.report
  end.

(** [main]: [NewServer(":8081", ":8082")]. *)
Definition main_server : Server := NewServer ":8081" ":8082".

(* ===================================================================== *)
(** ** context.Context *)
(* ===================================================================== *)

(** What the program observes of a context: whether its [Done] channel
    is closed and what [Err()] returns. *)
Record Context : Type := mkContext {
  Done : bool;
  Err : goerror
}.

(** [context.Background()]. *)
Definition Background : Context := {| Done := false; Err := None |}.

(** Cancelling a context with error [e]. Only the first cancellation has
    an effect. *)
Definition cancel (c : Context) (e : error) : Context :=
  if Done c then c else {| Done := true; Err := Some e |}.

(** A context derived from [parent] starts in the state of its parent,
    and the cancellation of the parent reaches it with the parent's
    error. *)
Definition derive (parent : Context) : Context := parent.

Definition propagate (parent child : Context) : Context :=
  match Err parent with
  | Some e => if Done parent then cancel child e else child
  | None => child
  end.

(* ===================================================================== *)
(** ** The run-time state of an http.Server *)
(* ===================================================================== *)

Inductive ConnState : Type :=
| StateNew
| StateActive
| StateIdle.

Definition ConnState_eqb (a b : ConnState) : bool :=
  match a, b with
  | StateNew, StateNew | StateActive, StateActive | StateIdle, StateIdle => true
  | _, _ => false
  end.

(** A tracked connection: its state and the Unix time it entered it. *)
Record conn : Type := mkConn {
  state : ConnState;
  unixSec : Z
}.

Record ServerState : Type := mkServerState {
  inShutdown : bool;
  listening : bool;                         (* a listener is tracked *)
  activeConn : list conn;
  disableKeepAlives : bool
}.

Definition fresh_server : ServerState :=
  {| inShutdown := false; listening := false; activeConn := [];
     disableKeepAlives := false |}.

(** [closeIdleConns] closes the connections that are idle, or new and
    silent for more than five seconds, and tells whether none is left. *)
Definition idle (now : Z) (c : conn) : bool :=
  let st := if ConnState_eqb (state c) StateNew && (unixSec c <? now - 5)
            then StateIdle else state c in
  ConnState_eqb st StateIdle && negb (unixSec c =? 0).

Definition closeIdleConns (now : Z) (srv : ServerState) : bool * ServerState :=
  (forallb (idle now) (activeConn srv),
   {| inShutdown := inShutdown srv; listening := listening srv;
      activeConn := filter (fun c => negb (idle now c)) (activeConn srv);
      disableKeepAlives := disableKeepAlives srv |}).

(** [srv.SetKeepAlivesEnabled(false)]. *)
Definition SetKeepAlivesEnabled_false (now : Z) (srv : ServerState) : ServerState :=
  let srv' := {| inShutdown := inShutdown srv; listening := listening srv;
                 activeConn := activeConn srv; disableKeepAlives := true |} in
  snd (closeIdleConns now srv').

(** The first part of [srv.Shutdown]: mark the server, close the
    listeners. [close_err] is what closing a listener returns. *)
Definition closeListeners (close_err : goerror) (srv : ServerState)
    : goerror * ServerState :=
  (if listening srv then close_err else None,
   {| inShutdown := true; listening := false; activeConn := activeConn srv;
      disableKeepAlives := disableKeepAlives srv |}).

(** One round of the loop of [srv.Shutdown(ctx)]: when no connection is
    left the result is the error of closing the listeners; otherwise the
    [select] on [ctx.Done()] and the poll timer returns [ctx.Err()] when
    the context is done, and waits for the timer ([None]) when it is not.
    The timer is started at one millisecond or more: it has not fired
    when the [select] of the first round runs. *)
Definition Shutdown_poll (lnerr : goerror) (ctx : Context) (now : Z)
    (srv : ServerState) : option goerror * ServerState :=
  let '(quiescent, srv') := closeIdleConns now srv in
  if quiescent then (Some lnerr, srv')
  else if Done ctx then (Some (Err ctx), srv')
  else (None, srv').

(* ===================================================================== *)
(** ** A listener task *)
(* ===================================================================== *)

(** The goroutine that calls [ListenAndServe]. *)
Inductive LasState : Type :=
| NotStarted
| Binding                                   (* in net.Listen *)
| Accepting                                 (* in the accept loop *)
| LasReturned.                              (* ListenAndServe has returned *)

(** The function [httpServer] / [httpsServer] itself. *)
Inductive Status : Type :=
| InSelect                                  (* blocked in the select *)
| InShutdown (lnerr : goerror)              (* waiting in Shutdown's loop *)
| Returned (r : goerror).

Record Task : Type := mkTask {
  srv : ServerState;
  las : LasState;
  errChan : list error;                     (* make(chan error, 1) *)
  errChanClosed : bool;
  status : Status
}.

Definition fresh_task : Task :=
  {| srv := fresh_server; las := NotStarted; errChan := [];
     errChanClosed := false; status := InSelect |}.

(** What the scheduler and the environment decide when a [select] runs:
    the case taken when both are ready, the time, and what closing the
    listener returns. *)
Record Sched : Type := mkSched {
  prefer_errChan : bool;
  now : Z;
  close_err : goerror
}.

(** [srv.Shutdown(ctx)], up to the end of the first round of its loop:
    the error of closing the listeners, then the result of the round.
    ([Shutdown] also waits for the accept loop to end; in a server that
    is shutting down the loop ends with [http.ErrServerClosed].) *)
Definition Shutdown (ctx : Context) (sch : Sched) (srv : ServerState)
    : goerror * (option goerror * ServerState) :=
  let '(lnerr, srv1) := closeListeners (close_err sch) srv in
  (lnerr, Shutdown_poll lnerr ctx (now sch) srv1).

Inductive Signal : Type :=
| SIGINT                                    (* os.Interrupt *)
| SIGTERM.

(** The state of one call of [Server.Run]. *)
Record State : Type := mkState {
  self : Server;
  ctx : Context;                            (* signal.NotifyContext(ctx, ...) *)
  gctx : Context;                           (* errgroup.WithContext(ctx) *)
  g_err : goerror;                          (* the error the errgroup keeps *)
  http : Task;
  https : Task;
  signalChan : list Signal;                 (* make(chan os.Signal, 1) *)
  watcherDone : bool;                       (* the goroutine of lines 39-43 *)
  crashed : option panic;                   (* a panic no one recovers *)
  rng : Entropy;
  files : FileSystem;
  replies : list (TaskId * Request * Reply)
}.

Definition task (s : State) (i : TaskId) : Task :=
  match i with
  | HTTP => http s
  | HTTPS => https s
  end.

Definition set_task (s : State) (i : TaskId) (t : Task) : State :=
  {| self := self s; ctx := ctx s; gctx := gctx s; g_err := g_err s;
     http := match i with HTTP => t | HTTPS => http s end;
     https := match i with HTTP => https s | HTTPS => t end;
     signalChan := signalChan s; watcherDone := watcherDone s;
     crashed := crashed s; rng := rng s; files := files s;
     replies := replies s |}.

Definition set_contexts (s : State) (c g : Context) : State :=
  {| self := self s; ctx := c; gctx := g; g_err := g_err s;
     http := http s; https := https s;
     signalChan := signalChan s; watcherDone := watcherDone s;
     crashed := crashed s; rng := rng s; files := files s;
     replies := replies s |}.

Definition crash (s : State) (p : panic) : State :=
  {| self := self s; ctx := ctx s; gctx := gctx s; g_err := g_err s;
     http := http s; https := https s;
     signalChan := signalChan s; watcherDone := watcherDone s;
     crashed := Some p; rng := rng s; files := files s;
     replies := replies s |}.

(** The state [s] with another log of replies: what the clients have
    seen is the only thing that differs. *)
Definition with_replies (s : State) (log : list (TaskId * Request * Reply)) : State :=
  {| self := self s; ctx := ctx s; gctx := gctx s; g_err := g_err s;
     http := http s; https := https s;
     signalChan := signalChan s; watcherDone := watcherDone s;
     crashed := crashed s; rng := rng s; files := files s;
     replies := log |}.

(** [Run] up to [g.Wait()]: the signal context is derived from the
    context of the caller, the group context from the signal context,
    and the two tasks are started. *)
Definition Run_start (sv : Server) (parent : Context) (e : Entropy)
    (fs : FileSystem) : State :=
  let ctx := derive parent in
  {| self := sv; ctx := ctx; gctx := derive ctx; g_err := None;
     http := fresh_task; https := fresh_task;
     signalChan := []; watcherDone := false; crashed := None;
     rng := e; files := fs; replies := [] |}.

(* ===================================================================== *)
(** ** The steps of a run *)
(* ===================================================================== *)

(** What can happen during a run: the environment acts (signals, the
    caller's context, the network) or a goroutine of the program is
    scheduled. *)
Inductive Event : Type :=
| SignalReceived (sig : Signal)             (* the OS delivers a signal *)
| ParentDone (e : error)                    (* the context given to Run is done *)
| LasStart (i : TaskId)                     (* the goroutine enters ListenAndServe *)
| Bind (i : TaskId) (r : goerror)           (* net.Listen returns *)
| AcceptError (i : TaskId) (e : error)      (* Accept fails for good *)
| Connections (i : TaskId) (cs : list conn) (* the connections change *)
| Serve (i : TaskId) (r : Request)          (* a client connects and asks r *)
| Select (i : TaskId) (sch : Sched)         (* the select of task i runs *)
| Watcher.                                  (* the goroutine of lines 39-43 runs *)

Definition with_srv (t : Task) (sv : ServerState) : Task :=
  {| srv := sv; las := las t; errChan := errChan t;
     errChanClosed := errChanClosed t; status := status t |}.

Definition with_las (t : Task) (l : LasState) (is_listening : bool) : Task :=
  {| srv := {| inShutdown := inShutdown (srv t); listening := is_listening;
               activeConn := activeConn (srv t);
               disableKeepAlives := disableKeepAlives (srv t) |};
     las := l; errChan := errChan t;
     errChanClosed := errChanClosed t; status := status t |}.

(** [ListenAndServe] has returned [err] in the goroutine of task [i]:
    lines 75-77 and 122-125. A send on the closed channel panics in a
    goroutine that nobody recovers. The return of [ListenAndServe], the
    test of the error and the send are one step here: the send is not
    delayed past a later step of the task. *)
Definition goroutine_returns (i : TaskId) (t : Task) (err : goerror) : outcome Task :=
  let t' := with_las t LasReturned false in
  match task_report i err with
  | Some e =>
      if errChanClosed t then Panic SendOnClosedChannel
      else Ok {| srv := srv t'; las := las t'; errChan := errChan t ++ [e];
                 errChanClosed := false; status := status t' |}
  | None => Ok t'
  end.

Definition goroutine_step (s : State) (i : TaskId) (err : goerror) : State :=
  match goroutine_returns i (task s i) err with
  | Ok t' => set_task s i t'
  | Panic p => crash s p
  end.

(** The goroutine that [g.Go] wraps around a task: the first non-nil
    error is kept and cancels the group context. *)
Definition errgroup_done (s : State) (r : goerror) : State :=
  match r, g_err s with
  | Some e, None =>
      {| self := self s; ctx := ctx s; gctx := cancel (gctx s) Canceled;
         g_err := Some e;
         http := http s; https := https s;
         signalChan := signalChan s; watcherDone := watcherDone s;
         crashed := crashed s; rng := rng s; files := files s;
         replies := replies s |}
  | _, _ => s
  end.

(** The task returns [r]: the deferred [close(errChan)] runs and the
    errgroup sees the result. *)
Definition task_returns (s : State) (i : TaskId) (sv : ServerState)
    (chan : list error) (r : goerror) : State :=
  errgroup_done
    (set_task s i {| srv := sv; las := las (task s i); errChan := chan;
                     errChanClosed := true; status := Returned r |})
    r.

(** [case <-ctx.Done()]: lines 81-84 and 129-132. The context given to
    [Shutdown] is the one whose [Done] channel has just fired. *)
Definition done_branch (s : State) (i : TaskId) (sch : Sched) : State :=
  let t := task s i in
  let srv1 := SetKeepAlivesEnabled_false (now sch) (srv t) in
  match Shutdown (gctx s) sch srv1 with
  | (_, (Some r, srv3)) => task_returns s i srv3 (errChan t) r
  | (lnerr, (None, srv3)) =>
      set_task s i {| srv := srv3; las := las t; errChan := errChan t;
                      errChanClosed := errChanClosed t;
                      status := InShutdown lnerr |}
  end.

(** [case err := <-errChan]: lines 85-86 and 133-134. *)
Definition err_branch (s : State) (i : TaskId) (e : error) : State :=
  let t := task s i in
  task_returns s i (srv t) (tl (errChan t)) (Some e).

Definition select_step (s : State) (i : TaskId) (sch : Sched) : State :=
  let t := task s i in
  match status t with
  | InSelect =>
      match errChan t, Done (gctx s) with
      | e :: _, true =>
          if prefer_errChan sch then err_branch s i e else done_branch s i sch
      | e :: _, false => err_branch s i e
      | [], true => done_branch s i sch
      | [], false => s
      end
  | InShutdown lnerr =>
      match Shutdown_poll lnerr (gctx s) (now sch) (srv t) with
      | (Some r, srv') => task_returns s i srv' (errChan t) r
      | (None, srv') => set_task s i (with_srv t srv')
      end
  | Returned _ => s
  end.

Definition accepting (t : Task) : bool :=
  match las t with
  | Accepting => listening (srv t) && negb (inShutdown (srv t))
  | _ => false
  end.

(** A client connects to listener [i], sends the request [r] and gets
    its reply, or sees the connection closed: one step, on a connection
    of its own. A server that does not accept leaves the client
    unanswered. Later requests on a connection that is kept open are
    not part of this model. *)
Definition serve_step (s : State) (i : TaskId) (r : Request) : State :=
  if accepting (task s i) then
    let '(reply, rng') := conn_serve (files s) (Mux (task_server (self s) i)) r (rng s) in
    {| self := self s; ctx := ctx s; gctx := gctx s; g_err := g_err s;
       http := http s; https := https s;
       signalChan := signalChan s; watcherDone := watcherDone s;
       crashed := crashed s; rng := rng'; files := files s;
       replies := replies s ++ [(i, r, reply)] |}
  else s.

(** The cancel function of the signal context, and a signal caught by
    it: the context is cancelled and the group context after it. *)
Definition cancel_ctx (s : State) (e : error) : State :=
  let c := cancel (ctx s) e in
  set_contexts s c (propagate c (gctx s)).

(** Lines 39-43. Nothing ever sends on [signalChan]: the channel is not
    given to [signal.Notify]. *)
Definition watcher_step (s : State) : State :=
  if watcherDone s then s
  else match signalChan s with
       | _ :: rest =>
           let s' := cancel_ctx s Canceled in
           {| self := self s'; ctx := ctx s'; gctx := gctx s'; g_err := g_err s';
              http := http s'; https := https s';
              signalChan := rest; watcherDone := true;
              crashed := crashed s'; rng := rng s'; files := files s';
              replies := replies s' |}
       | [] => s
       end.

(** One step of a run. [LasStart], [Bind] and [AcceptError] follow
    [ListenAndServe]: it returns [http.ErrServerClosed] at once in a
    server that is shutting down, the error of [net.Listen] when the
    address cannot be bound, and out of the accept loop the error of
    [Accept], or [http.ErrServerClosed] when the server is shutting
    down. A process that has crashed takes no step. *)
Definition step (s : State) (ev : Event) : State :=
  match crashed s with
  | Some _ => s
  | None =>
      match ev with
      | SignalReceived _ => cancel_ctx s Canceled
      | ParentDone e => cancel_ctx s e
      | LasStart i =>
          match las (task s i) with
          | NotStarted =>
              if inShutdown (srv (task s i))
              then goroutine_step s i (Some ErrServerClosed)
              else set_task s i (with_las (task s i) Binding false)
          | _ => s
          end
      | Bind i r =>
          match las (task s i) with
          | Binding =>
              match r with
              | Some e => goroutine_step s i (Some e)
              | None =>
                  if inShutdown (srv (task s i))
                  then goroutine_step s i (Some ErrServerClosed)
                  else set_task s i (with_las (task s i) Accepting true)
              end
          | _ => s
          end
      | AcceptError i e =>
          match las (task s i) with
          | Accepting =>
              if inShutdown (srv (task s i))
              then goroutine_step s i (Some ErrServerClosed)
              else goroutine_step s i (Some e)
          | _ => s
          end
      | Connections i cs =>
          if accepting (task s i)
          then set_task s i
                 (with_srv (task s i)
                    {| inShutdown := inShutdown (srv (task s i));
                       listening := listening (srv (task s i));
                       activeConn := cs;
                       disableKeepAlives := disableKeepAlives (srv (task s i)) |})
          else s
      | Serve i r => serve_step s i r
      | Select i sch => select_step s i sch
      | Watcher => watcher_step s
      end
  end.

Definition run (s : State) (tr : list Event) : State := fold_left step tr s.

(** [g.Wait()] returns once both tasks have returned, and [Run] returns
    the error of the group: lines 46-52. [None]: [Run] has not returned. *)
Definition Run_returns (s : State) : option goerror :=
  match crashed s, status (http s), status (https s) with
  | None, Returned _, Returned _ => Some (g_err s)
  | _, _, _ => None
  end.

(** [main]: exit status 1 on an error, 0 otherwise. *)
Definition exit_status (r : goerror) : Z :=
  match r with
  | Some _ => 1
  | None => 0
  end.

(* ===================================================================== *)
(** ** What generateRandomString computes *)
(* ===================================================================== *)

(** The character the loop writes for one read of the random source. *)
Definition letter_at (o : option Z) : ascii :=
  match o with
  | Some v =>
      match String.get (Z.to_nat v) letters with
      | Some c => c
      | None => zero
      end
  | None => zero
  end.

(** The characters written by [k] rounds of the loop. *)
Definition token_chars (st : Entropy) (k : nat) : list ascii :=
  map (fun j => letter_at (tape st (pos st + j))) (seq 0 k).

(** The random source after [k] successful calls of [rand.Int]. *)
Definition advance (st : Entropy) (k : nat) : Entropy :=
  {| tape := tape st; pos := pos st + k;
     drawn := drawn st ++ repeat (crypto_rand_Reader, len letters) k |}.

(** The symbols of the alphabet. *)
Definition symbol (c : ascii) : bool :=
  let n := nat_of_ascii c in
  ((48 <=? n) && (n <=? 57) ||                (* 0-9 *)
   (65 <=? n) && (n <=? 90) ||                (* A-Z *)
   (97 <=? n) && (n <=? 122) ||               (* a-z *)
   (n =? 45))%nat.                            (* - *)


(* ===================================================================== *)
(** ** Runs: reachable states and what is counted along a trace *)
(* ===================================================================== *)

(** A context that is done has an error. *)
Definition wf_context (c : Context) : Prop :=
  Done c = true -> Err c <> None.

(** The states of the runs of [Run]. *)
Inductive reachable : State -> Prop :=
| reachable_start (sv : Server) (parent : Context) (e : Entropy) (fs : FileSystem) :
    wf_context parent -> reachable (Run_start sv parent e fs)
| reachable_step (s : State) (ev : Event) :
    reachable s -> reachable (step s ev).

(** How many steps of a trace cancel the group context, that is, take
    it from not done to done. *)
Fixpoint cancellations (s : State) (tr : list Event) : nat :=
  match tr with
  | [] => 0
  | ev :: tr' =>
      (if negb (Done (gctx s)) && Done (gctx (step s ev)) then 1 else 0)
      + cancellations (step s ev) tr'
  end.

(** What holds of a task in every reachable state. *)
Definition task_ok (i : TaskId) (t : Task) : Prop :=
  (forall lnerr, status t <> InShutdown lnerr) /\
  (forall e, In e (errChan t) -> task_report i (Some e) = Some e) /\
  (List.length (errChan t) <= 1)%nat /\
  (errChan t <> [] -> las t = LasReturned) /\
  (errChanClosed t = true <-> exists r, status t = Returned r).

Definition Inv (s : State) : Prop :=
  (Done (ctx s) = true -> Done (gctx s) = true) /\
  wf_context (ctx s) /\
  wf_context (gctx s) /\
  signalChan s = [] /\
  (g_err s <> None -> Done (gctx s) = true) /\
  (forall i, task_ok i (task s i)).

(* ===================================================================== *)
(** ** A concrete run, for examples *)
(* ===================================================================== *)

(** A random source whose every read returns 7, and an empty challenge
    directory. *)
Definition sevens : Entropy := mkEntropy (fun _ => Some 7) 0 [].

Definition no_files : FileSystem := fun _ => None.

(** [main]: [serv.Run(context.Background())]. *)
Definition main_start : State := Run_start main_server Background sevens no_files.

(** Both listeners are bound and accept connections. *)
Definition both_listening : list Event :=
  [LasStart HTTP; Bind HTTP None; LasStart HTTPS; Bind HTTPS None].

(** A scheduler that prefers the cancellation case, at time 100, with
    listeners that close without error. *)
Definition sched0 : Sched :=
  {| prefer_errChan := false; now := 100; close_err := None |}.

Definition address_in_use : error := OpError "listen tcp :8081: bind: address already in use".

Definition get_root : Request := {| Method := "GET"; Path := "/" |}.

Definition get_error : Request := {| Method := "GET"; Path := "/error" |}.

Definition simulated_crash : panic := PanicValue "simulated server crash".

(* ===================================================================== *)
(** ** Tactics *)
(* ===================================================================== *)

(** Case analysis on whatever a step function branches on. *)
Ltac break_match :=
  match goal with
  | |- context [match ?x with _ => _ end] => destruct x eqn:?
  | H : context [match ?x with _ => _ end] |- _ => destruct x eqn:?
  end.

Ltac invert_ok :=
  repeat match goal with
         | H : Ok _ = Ok _ |- _ => inversion H; subst; clear H; simpl in *
         | H : (_, _) = (_, _) |- _ => inversion H; subst; clear H; simpl in *
         end.

Ltac splits := repeat match goal with |- _ /\ _ => split end.

Ltac break_all :=
  simpl in *; try congruence;
  repeat (break_match; simpl in *; invert_ok; try congruence).

Ltac unfold_step :=
  unfold step, cancel_ctx, goroutine_step, goroutine_returns, serve_step,
    select_step, watcher_step, done_branch, Shutdown, err_branch, task_returns,
    errgroup_done, cancel_ctx, set_contexts, set_task, crash, with_las, with_srv,
    Shutdown_poll, closeListeners, closeIdleConns, task in *.


(* ===================================================================== *)
(** ** Further notions about runs *)
(* ===================================================================== *)

(** The reply of [httpHandler] that carries the token [tok]. *)
Definition greeting (tok : string) : Response :=
  {| StatusCode := StatusOK; Body := String.append "Hello World " tok |}.

(** The events that neither cancel a context nor make [ListenAndServe]
    fail. *)
Definition quiet (ev : Event) : bool :=
  match ev with
  | SignalReceived _ | ParentDone _ | AcceptError _ _ | Bind _ (Some _) => false
  | _ => true
  end.

(** Nothing has been cancelled, nothing has failed, and both tasks wait
    in their [select]. *)
Definition serving (s : State) : Prop :=
  crashed s = None /\
  Done (gctx s) = false /\
  g_err s = None /\
  forall i, status (task s i) = InSelect /\
            errChan (task s i) = [] /\
            inShutdown (srv (task s i)) = false.

(** The server of a task is shutting down, or its accept loop has ended. *)
Definition closed_or_stopped (t : Task) : Prop :=
  inShutdown (srv t) = true \/ las t = LasReturned.

(** The replies that listener [i] has made. *)
Definition from_listener (i : TaskId) (log : list (TaskId * Request * Reply))
    : list (TaskId * Request * Reply) :=
  filter (fun entry => TaskId_eqb (fst (fst entry)) i) log.

(** [main]: the exit status once [Run] has returned ([None]: it has
    not): 1 after [slog.Error] and [os.Exit(1)], 0 after
    ["Server stopped gracefully."]. *)
Definition main_exit (s : State) : option Z :=
  match Run_returns s with
  | Some r => Some (exit_status r)
  | None => None
  end.

(** Where an error returned by task [i] can come from, in a run started
    on the context [parent] that has seen the events [tr]: the
    cancellation of a context, a failure of [net.Listen] or [Accept]
    that passed the test of the accept goroutine, or the closing of the
    listener in [Shutdown]. *)
Definition origin (parent : Context) (tr : list Event) (i : TaskId) (e : error)
    : Prop :=
  e = Canceled \/
  Err parent = Some e \/
  In (ParentDone e) tr \/
  ((In (Bind i (Some e)) tr \/ In (AcceptError i e) tr) /\
   task_report i (Some e) = Some e) \/
  (exists sch, In (Select i sch) tr /\ close_err sch = Some e).
(* ===================================================================== *)
(** * Properties *)
(* ===================================================================== *)

(** ** generateRandomString *)

Lemma len_letters : len letters = 63.
Proof. reflexivity. Qed.

Lemma get_in_range (s : string) :
  forall n, (n < String.length s)%nat -> exists c, String.get n s = Some c.
Proof.
  induction s as [|a s IH]; intros n Hn; simpl in Hn; [lia|].
  destruct n as [|n]; simpl; [now exists a|].
  apply IH; lia.
Qed.

Lemma get_In (s : string) :
  forall n c, String.get n s = Some c -> In c (list_ascii_of_string s).
Proof.
  induction s as [|a s IH]; intros n c H; simpl in H; [discriminate|].
  destruct n as [|n]; simpl.
  - left; congruence.
  - right; eapply IH; eassumption.
Qed.

Lemma wrap64_small (v : Z) : 0 <= v < 63 -> wrap64 v = v.
Proof.
  intros H. unfold wrap64.
  rewrite Z.mod_small; lia.
Qed.

Lemma index_letters (v : Z) :
  0 <= v < 63 -> index letters v = Ok (letter_at (Some v)).
Proof.
  intros H. unfold index, letter_at. rewrite len_letters.
  replace ((v <? 0) || (63 <=? v)) with false
    by (symmetry; apply orb_false_iff; split; [apply Z.ltb_ge|apply Z.leb_gt]; lia).
  destruct (get_in_range letters (n := Z.to_nat v)) as [c Hc].
  { change (String.length letters) with 63%nat. lia. }
  now rewrite Hc.
Qed.

Lemma letter_at_In (v : Z) :
  0 <= v < 63 -> In (letter_at (Some v)) (list_ascii_of_string letters).
Proof.
  intros H. unfold letter_at.
  destruct (get_in_range letters (n := Z.to_nat v)) as [c Hc].
  { change (String.length letters) with 63%nat. lia. }
  rewrite Hc. eapply get_In; eassumption.
Qed.

Lemma store_nat_length (c : ascii) :
  forall l i, List.length (store_nat l i c) = List.length l.
Proof.
  induction l as [|h t IH]; intros [|i]; simpl; auto.
Qed.

Lemma store_nat_firstn (c : ascii) :
  forall l i, (i < List.length l)%nat ->
    firstn (S i) (store_nat l i c) = firstn i l ++ [c].
Proof.
  induction l as [|h t IH]; intros i Hi; simpl in Hi; [lia|].
  destruct i as [|i].
  - reflexivity.
  - change (store_nat (h :: t) (S i) c) with (h :: store_nat t i c).
    change (firstn (S (S i)) (h :: store_nat t i c))
      with (h :: firstn (S i) (store_nat t i c)).
    rewrite IH by lia. reflexivity.
Qed.

Lemma store_nat_skipn (c : ascii) :
  forall l i n, (i < n)%nat -> skipn n (store_nat l i c) = skipn n l.
Proof.
  induction l as [|h t IH]; intros i n Hn.
  - now destruct i.
  - destruct n as [|n]; [lia|].
    destruct i as [|i]; simpl; [reflexivity|].
    apply IH; lia.
Qed.

Lemma store_in_bounds (l : list ascii) (i : nat) (c : ascii) :
  (i < List.length l)%nat ->
  store l (Z.of_nat i) c = Ok (store_nat l i c).
Proof.
  intros H. unfold store.
  replace ((Z.of_nat i <? 0) || (Z.of_nat (List.length l) <=? Z.of_nat i)) with false
    by (symmetry; apply orb_false_iff; split; [apply Z.ltb_ge|apply Z.leb_gt]; lia).
  now rewrite Nat2Z.id.
Qed.

Lemma token_chars_S (st : Entropy) (k : nat) :
  token_chars st (S k) =
  letter_at (tape st (pos st)) :: token_chars (advance st 1) k.
Proof.
  unfold token_chars. simpl seq. simpl map.
  rewrite Nat.add_0_r. f_equal.
  rewrite <- seq_shift, map_map.
  apply map_ext. intros j. simpl. f_equal. f_equal. lia.
Qed.

Lemma advance_0 (st : Entropy) : advance st 0 = st.
Proof.
  destruct st as [t p d]. unfold advance. simpl.
  now rewrite Nat.add_0_r, app_nil_r.
Qed.

Lemma advance_S (st : Entropy) (k : nat) :
  advance (advance st 1) k = advance st (S k).
Proof.
  unfold advance. simpl. f_equal.
  - lia.
  - now rewrite <- app_assoc.
Qed.

Lemma rand_Int_letters (st : Entropy) :
  rand_Int crypto_rand_Reader (len letters) st =
  (Ok (match tape st (pos st) with
       | Some v => (Some v, None)
       | None => (None, Some (OpError "crypto/rand: read failed"))
       end), advance st 1).
Proof.
  unfold rand_Int, advance. rewrite len_letters.
  change (63 <=? 0) with false. cbv iota.
  rewrite Nat.add_1_r.
  now destruct (tape st (pos st)).
Qed.

Lemma reads_succeed_S (st : Entropy) (k : nat) :
  reads_succeed (S k) st <->
  tape st (pos st) <> None /\ reads_succeed k (advance st 1).
Proof.
  unfold reads_succeed. simpl. split.
  - intros H. split.
    + specialize (H 0%nat). rewrite Nat.add_0_r in H. apply H. lia.
    + intros i Hi. replace (pos st + 1 + i)%nat with (pos st + S i)%nat by lia.
      apply H. lia.
  - intros [H0 H] [|i] Hi.
    + now rewrite Nat.add_0_r.
    + replace (pos st + S i)%nat with (pos st + 1 + i)%nat by lia.
      apply H. lia.
Qed.

(** One round of the loop. *)
Lemma fill_S (k i : nat) (ret : list ascii) (st : Entropy) :
  reads_in_range (len letters) st ->
  (i < List.length ret)%nat ->
  fill (S k) (Z.of_nat i) ret st =
  match tape st (pos st) with
  | Some v =>
      fill k (Z.of_nat (S i)) (store_nat ret i (letter_at (Some v))) (advance st 1)
  | None => (Panic NilDereference, advance st 1)
  end.
Proof.
  intros Hr Hb.
  change (fill (S k) (Z.of_nat i) ret st) with
    (mbind (rand_Int crypto_rand_Reader (len letters))
       (fun x => match x with
                 | (num, _) =>
                     mbind (lift (Int64 num)) (fun j =>
                     mbind (lift (index letters j)) (fun c =>
                     mbind (lift (store ret (Z.of_nat i) c)) (fun ret' =>
                     fill k (Z.of_nat i + 1) ret')))
                 end) st).
  unfold mbind at 1. rewrite rand_Int_letters.
  destruct (tape st (pos st)) as [v|] eqn:Hv; [|reflexivity].
  assert (Hv' : 0 <= v < 63) by (rewrite <- len_letters; eapply Hr; eassumption).
  unfold mbind, lift. simpl Int64. rewrite (wrap64_small Hv').
  rewrite (index_letters Hv').
  rewrite store_in_bounds by lia.
  now replace (Z.of_nat i + 1) with (Z.of_nat (S i)) by lia.
Qed.

(** The loop, from any point: either every read succeeds and the slots
    [i .. i+k-1] of the slice receive the letters of the values read, or
    one read fails and the nil result is dereferenced. *)
Lemma fill_cases (k : nat) :
  forall (i : nat) (ret : list ascii) (st : Entropy),
    reads_in_range (len letters) st ->
    (i + k <= List.length ret)%nat ->
    (reads_succeed k st /\
     fill k (Z.of_nat i) ret st =
     (Ok (firstn i ret ++ token_chars st k ++ skipn (i + k) ret), advance st k))
    \/
    (~ reads_succeed k st /\
     exists st', fill k (Z.of_nat i) ret st = (Panic NilDereference, st')).
Proof.
  induction k as [|k IH]; intros i ret st Hr Hb.
  - left. split; [intros j Hj; lia|].
    simpl. unfold mret. rewrite advance_0, Nat.add_0_r.
    now rewrite firstn_skipn.
  - rewrite fill_S by (assumption || lia).
    destruct (tape st (pos st)) as [v|] eqn:Hv.
    + destruct (IH (S i) (store_nat ret i (letter_at (Some v))) (advance st 1))
        as [[Hs He]|[Hs [st' He]]].
      * exact Hr.
      * rewrite store_nat_length. lia.
      * left. split.
        { apply reads_succeed_S. split; [congruence|exact Hs]. }
        rewrite He, advance_S, token_chars_S, Hv.
        rewrite store_nat_firstn by lia.
        rewrite store_nat_skipn by lia.
        rewrite <- app_assoc.
        replace (S i + k)%nat with (i + S k)%nat by lia.
        reflexivity.
      * right. split.
        { intros H. apply reads_succeed_S in H. tauto. }
        exists st'. exact He.
    + right. split.
      * intros H. apply reads_succeed_S in H. tauto.
      * exists (advance st 1). reflexivity.
Qed.

Lemma token_chars_length (st : Entropy) (k : nat) :
  List.length (token_chars st k) = k.
Proof. unfold token_chars. now rewrite length_map, length_seq. Qed.

Lemma string_length_of_list (l : list ascii) :
  String.length (string_of_list_ascii l) = List.length l.
Proof. induction l; simpl; congruence. Qed.

(** The whole function on a non-negative length. *)
Lemma generateRandomString_cases (n : Z) (st : Entropy) :
  0 <= n ->
  reads_in_range (len letters) st ->
  (reads_succeed (Z.to_nat n) st /\
   generateRandomString n st =
   (Ok (string_of_list_ascii (token_chars st (Z.to_nat n))), advance st (Z.to_nat n)))
  \/
  (~ reads_succeed (Z.to_nat n) st /\
   exists st', generateRandomString n st = (Panic NilDereference, st')).
Proof.
  intros Hn Hr. unfold generateRandomString, mbind at 1, lift, make_bytes.
  replace (n <? 0) with false by (symmetry; apply Z.ltb_ge; lia).
  unfold mbind.
  destruct (@fill_cases (Z.to_nat n) 0 (repeat zero (Z.to_nat n)) st Hr)
    as [[Hs He]|[Hs [st' He]]].
  - rewrite repeat_length. lia.
  - left. split; [exact Hs|].
    change (Z.of_nat 0) with 0 in He. rewrite He. unfold mret.
    simpl (firstn 0 _). simpl (0 + _)%nat.
    rewrite skipn_all2 by (rewrite repeat_length; lia).
    now rewrite app_nil_r.
  - right. split; [exact Hs|]. exists st'.
    change (Z.of_nat 0) with 0 in He. now rewrite He.
Qed.


Lemma get_string_of_list (l : list ascii) :
  forall i, String.get i (string_of_list_ascii l) = nth_error l i.
Proof.
  induction l as [|a l IH]; intros [|i]; simpl; auto.
Qed.

Lemma token_chars_nth (st : Entropy) (k i : nat) :
  (i < k)%nat ->
  nth_error (token_chars st k) i = Some (letter_at (tape st (pos st + i))).
Proof.
  intros H. unfold token_chars.
  rewrite nth_error_map, nth_error_seq.
  destruct (Nat.ltb_spec i k); [reflexivity|lia].
Qed.

Lemma token_chars_In (st : Entropy) (k : nat) :
  reads_in_range (len letters) st ->
  reads_succeed k st ->
  forall c, In c (token_chars st k) -> In c (list_ascii_of_string letters).
Proof.
  intros Hr Hs c Hc. unfold token_chars in Hc.
  apply in_map_iff in Hc. destruct Hc as [j [<- Hj]].
  apply in_seq in Hj.
  destruct (tape st (pos st + j)) as [v|] eqn:Hv.
  - apply letter_at_In. rewrite <- len_letters. eapply Hr; eassumption.
  - exfalso. apply (Hs j); [lia|assumption].
Qed.

(** The alphabet is exactly the set of the digits, the upper-case and
    lower-case letters and the hyphen. *)
Lemma letters_symbols (c : ascii) :
  In c (list_ascii_of_string letters) <-> symbol c = true.
Proof.
  assert (H : symbol c = existsb (Ascii.eqb c) (list_ascii_of_string letters)).
  { destruct c as [[] [] [] [] [] [] [] []]; vm_compute; reflexivity. }
  rewrite H, existsb_exists. split.
  - intros Hc. exists c. split; [exact Hc|apply Ascii.eqb_refl].
  - intros [x [Hx He]]. apply Ascii.eqb_eq in He. now subst.
Qed.

Lemma letters_distinct : NoDup (list_ascii_of_string letters).
Proof.
  assert (H : nodup ascii_dec (list_ascii_of_string letters)
              = list_ascii_of_string letters) by (vm_compute; reflexivity).
  rewrite <- H. apply NoDup_nodup.
Qed.

(** C8. [httpHandler] replies to [GET /] when the ten reads of the
    random source succeed, and every reply it makes is "Hello World "
    followed by the result of [generateRandomString(10)]: a token of
    length 10 whose characters all are symbols of [letters] -- an
    alphabet of 63 distinct symbols, exactly the digits, the upper-case
    letters, the lower-case letters and the hyphen -- and whose [i]-th
    character is the letter selected by the [i]-th of ten values read
    from [crypto/rand]'s reader with bound 63. *)
Theorem greeting_token (r : Request) (st : Entropy) :
  reads_in_range (len letters) st ->
  (reads_succeed 10 st -> exists resp st', httpHandler r st = (Ok resp, st')) /\
  (forall resp st',
     httpHandler r st = (Ok resp, st') ->
     exists tok : string,
       generateRandomString 10 st = (Ok tok, st') /\
       resp = {| StatusCode := StatusOK; Body := String.append "Hello World " tok |} /\
       String.length tok = 10%nat /\
       (forall c, In c (list_ascii_of_string tok) ->
                  In c (list_ascii_of_string letters)) /\
       drawn st' = drawn st ++ repeat (crypto_rand_Reader, 63) 10 /\
       (forall i, (i < 10)%nat ->
          exists v, tape st (pos st + i) = Some v /\ 0 <= v < 63 /\
                    String.get i tok = String.get (Z.to_nat v) letters)) /\
  len letters = 63 /\
  NoDup (list_ascii_of_string letters) /\
  (forall c, In c (list_ascii_of_string letters) <-> symbol c = true).
Proof.
  intros Hr.
  split; [|split; [|split; [exact len_letters|split;
                              [exact letters_distinct|exact letters_symbols]]]].
  - intros Hs.
    destruct (@generateRandomString_cases 10 st ltac:(lia) Hr) as [[_ He]|[Hn _]];
      [|contradiction].
    unfold httpHandler, mbind. rewrite He. unfold mret. eauto.
  - intros resp st' Hh.
    destruct (@generateRandomString_cases 10 st ltac:(lia) Hr)
      as [[Hs He]|[_ [st1 He]]].
    2:{ unfold httpHandler, mbind in Hh. rewrite He in Hh. discriminate. }
    change (Z.to_nat 10) with 10%nat in He, Hs.
    unfold httpHandler, mbind in Hh. rewrite He in Hh.
    unfold mret in Hh. injection Hh as <- <-.
    exists (string_of_list_ascii (token_chars st 10)).
    split; [exact He|]. split; [reflexivity|].
    split.
    { now rewrite string_length_of_list, token_chars_length. }
    split.
    { intros c. rewrite list_ascii_of_string_of_list_ascii.
      now apply token_chars_In. }
    split; [reflexivity|].
    intros i Hi.
    destruct (tape st (pos st + i)) as [v|] eqn:Hv;
      [|exfalso; apply (Hs i); assumption].
    assert (Hv' : 0 <= v < 63) by (rewrite <- len_letters; eapply Hr; eassumption).
    exists v. split; [reflexivity|]. split; [exact Hv'|].
    rewrite get_string_of_list, token_chars_nth, Hv by assumption.
    unfold letter_at.
    destruct (get_in_range letters (n := Z.to_nat v)) as [c Hc].
    { change (String.length letters) with 63%nat. lia. }
    now rewrite Hc.
Qed.

(** A random source whose every read returns 7: the token is ten times
    the letter of index 7. *)
Lemma greeting_token_witness :
  exists tok : string,
    generateRandomString 10 sevens = (Ok tok, advance sevens 10) /\
    String.length tok = 10%nat.
Proof.
  destruct (@greeting_token get_root sevens) as (_ & H & _).
  - intros k v Hk. injection Hk as <-. rewrite len_letters. lia.
  - destruct (H {| StatusCode := StatusOK; Body := "Hello World 7777777777" |}
                (advance sevens 10))
      as (tok & H1 & _ & H3 & _).
    + reflexivity.
    + exists tok. split; assumption.
Defined.

(** C10. [generateRandomString] drops the error of [rand.Int]. For
    [n > 0] it returns a string exactly when the [n] reads it makes all
    succeed, and then every index into [letters] is in bounds; a read
    that fails returns a nil number together with the dropped error, and
    the call of [Int64] on it is a nil dereference. *)
Theorem generateRandomString_safe_iff_reads_succeed (n : Z) (st : Entropy) :
  0 < n ->
  reads_in_range (len letters) st ->
  ((exists tok st', generateRandomString n st = (Ok tok, st')) <->
   reads_succeed (Z.to_nat n) st) /\
  (reads_succeed (Z.to_nat n) st ->
   forall i, (i < Z.to_nat n)%nat ->
     exists v c, tape st (pos st + i) = Some v /\
                 0 <= wrap64 v < len letters /\
                 index letters (wrap64 v) = Ok c) /\
  (~ reads_succeed (Z.to_nat n) st ->
   exists st', generateRandomString n st = (Panic NilDereference, st')) /\
  (forall st0, tape st0 (pos st0) = None ->
     exists e st1,
       rand_Int crypto_rand_Reader (len letters) st0 = (Ok (None, Some e), st1) /\
       Int64 None = Panic NilDereference).
Proof.
  intros Hn Hr.
  destruct (@generateRandomString_cases n st ltac:(lia) Hr) as [[Hs He]|[Hs [st' He]]].
  - split; [|split; [|split]].
    + split; [intros _; exact Hs|intros _; eauto].
    + intros _ i Hi.
      destruct (tape st (pos st + i)) as [v|] eqn:Hv;
        [|exfalso; apply (Hs i); assumption].
      assert (Hv' : 0 <= v < 63) by (rewrite <- len_letters; eapply Hr; eassumption).
      exists v, (letter_at (Some v)).
      rewrite (wrap64_small Hv'), len_letters.
      split; [reflexivity|]. split; [exact Hv'|]. now apply index_letters.
    + intros H. contradiction.
    + intros st0 H0. rewrite rand_Int_letters, H0. eauto.
  - split; [|split; [|split]].
    + split; [|intros H; contradiction].
      intros [tok [st'' H]]. rewrite He in H. discriminate.
    + intros H. contradiction.
    + intros _. eauto.
    + intros st0 H0. rewrite rand_Int_letters, H0. eauto.
Qed.

(** A random source whose third read fails. *)
Lemma generateRandomString_safe_iff_reads_succeed_witness :
  exists st',
    generateRandomString 10
      (mkEntropy (fun k => if (k =? 2)%nat then None else Some 7) 0 []) =
    (Panic NilDereference, st').
Proof.
  destruct (@generateRandomString_safe_iff_reads_succeed 10
              (mkEntropy (fun k => if (k =? 2)%nat then None else Some 7) 0 []))
    as [_ [_ [H _]]].
  - lia.
  - intros k v H. simpl in H. destruct (k =? 2)%nat; [discriminate|].
    injection H as <-. rewrite len_letters. lia.
  - apply H. intros Hs. apply (Hs 2%nat); [simpl; lia|reflexivity].
Defined.

(** ** The listeners *)

(** C9. Both listeners build their [http.Server] with a read timeout of
    5 seconds, a write timeout of 10 seconds and an idle timeout of 15
    seconds (durations count nanoseconds). *)
Theorem listener_timeouts (s : Server) (i : TaskId) :
  ReadTimeout (task_server s i) = 5 * Second /\
  WriteTimeout (task_server s i) = 10 * Second /\
  IdleTimeout (task_server s i) = 15 * Second /\
  Second = 10 ^ 9.
Proof. destruct i; repeat split. Qed.

(** C3. The task [httpsServer] starts its server with [ListenAndServe],
    as [httpServer] does: the listener bound to [httpsAddr] ([":8082"] in
    [main]) serves its connections in plaintext, not over TLS. *)
Theorem httpsServer_serves_plaintext :
  Addr (task_server main_server HTTPS) = ":8082" /\
  httpsServer.serve_call = ListenAndServe /\
  transport_of (task_serve_call HTTPS) = Plaintext /\
  transport_of (task_serve_call HTTPS) <> EncryptedTLS /\
  (forall i, transport_of (task_serve_call i) = Plaintext).
Proof.
  repeat split; try discriminate. intros []; reflexivity.
Qed.










(** ** Runs *)

Lemma run_app (s : State) (tr1 tr2 : list Event) :
  run s (tr1 ++ tr2) = run (run s tr1) tr2.
Proof. apply fold_left_app. Qed.

Lemma run_cons (s : State) (ev : Event) (tr : list Event) :
  run s (ev :: tr) = run (step s ev) tr.
Proof. reflexivity. Qed.

Lemma reachable_run (s : State) (tr : list Event) :
  reachable s -> reachable (run s tr).
Proof.
  revert s. induction tr as [|ev tr IH]; intros s H; [exact H|].
  rewrite run_cons. apply IH. now constructor.
Qed.

Lemma cancel_done (c : Context) (e : error) : Done (cancel c e) = true.
Proof. unfold cancel. destruct (Done c) eqn:H; [exact H|reflexivity]. Qed.

Lemma cancel_idempotent (c : Context) (e e' : error) :
  cancel (cancel c e) e' = cancel c e.
Proof. unfold cancel. destruct (Done c) eqn:H; simpl; [now rewrite H|reflexivity]. Qed.

Lemma cancel_of_done (c : Context) (e : error) : Done c = true -> cancel c e = c.
Proof. unfold cancel. now intros ->. Qed.

Lemma propagate_of_done (p c : Context) : Done c = true -> propagate p c = c.
Proof.
  intros H. unfold propagate.
  destruct (Err p); [|reflexivity].
  destruct (Done p); [|reflexivity].
  now apply cancel_of_done.
Qed.

Lemma crashed_step (s : State) (ev : Event) (p : panic) :
  crashed s = Some p -> step s ev = s.
Proof. intros H. unfold step. now rewrite H. Qed.

(** Once the group context is done no step changes it. *)
Lemma gctx_frozen (s : State) (ev : Event) :
  Done (gctx s) = true -> gctx (step s ev) = gctx s.
Proof.
  intros H. unfold step.
  destruct (crashed s); [reflexivity|].
  destruct ev; simpl;
    unfold cancel_ctx, goroutine_step, goroutine_returns, serve_step, select_step,
      watcher_step, done_branch, Shutdown, err_branch, task_returns, errgroup_done,
      cancel_ctx, set_contexts, Shutdown_poll, closeListeners, closeIdleConns;
    simpl;
    try (apply propagate_of_done; assumption);
    break_all;
    try (apply cancel_of_done; assumption);
    try (apply propagate_of_done; assumption).
Qed.

Lemma gctx_frozen_run (s : State) (tr : list Event) :
  Done (gctx s) = true -> gctx (run s tr) = gctx s.
Proof.
  revert s. induction tr as [|ev tr IH]; intros s H; [reflexivity|].
  rewrite run_cons, IH; rewrite gctx_frozen; auto.
Qed.

(** The error the errgroup keeps is the first one. *)
Lemma g_err_frozen (s : State) (ev : Event) (e : error) :
  g_err s = Some e -> g_err (step s ev) = Some e.
Proof.
  intros H. unfold step.
  destruct (crashed s); [exact H|].
  destruct ev; try destruct i; unfold_step; simpl; break_all.
Qed.

Lemma g_err_frozen_run (s : State) (tr : list Event) (e : error) :
  g_err s = Some e -> g_err (run s tr) = Some e.
Proof.
  revert s. induction tr as [|ev tr IH]; intros s H; [exact H|].
  rewrite run_cons. apply IH. now apply g_err_frozen.
Qed.

(** A task that has returned stays so, with the same result. *)
Lemma returned_frozen (s : State) (ev : Event) (j : TaskId) (r : goerror) :
  status (task s j) = Returned r -> status (task (step s ev) j) = Returned r.
Proof.
  intros H. unfold step.
  destruct (crashed s); [exact H|].
  destruct ev; try destruct i; destruct j; unfold_step; simpl in *; break_all.
Qed.

Lemma returned_frozen_run (s : State) (tr : list Event) (j : TaskId) (r : goerror) :
  status (task s j) = Returned r -> status (task (run s tr) j) = Returned r.
Proof.
  revert s. induction tr as [|ev tr IH]; intros s H; [exact H|].
  rewrite run_cons. apply IH. now apply returned_frozen.
Qed.

(** [ListenAndServe] is called once: after it has returned no step
    starts it again, and nothing more is sent on the error channel. *)
Lemma las_returned_frozen (s : State) (ev : Event) (j : TaskId) :
  las (task s j) = LasReturned ->
  las (task (step s ev) j) = LasReturned /\
  (List.length (errChan (task (step s ev) j)) <= List.length (errChan (task s j)))%nat.
Proof.
  intros H. unfold step.
  destruct (crashed s); [split; [exact H|lia]|].
  destruct ev; try destruct i; destruct j; unfold_step; simpl in *; break_all;
    split; try reflexivity; try assumption; try lia;
    try match goal with
    | H : errChan _ = _ |- _ => rewrite H; simpl; lia
    end.
Qed.

Lemma las_returned_frozen_run (s : State) (tr : list Event) (j : TaskId) :
  las (task s j) = LasReturned ->
  las (task (run s tr) j) = LasReturned /\
  (List.length (errChan (task (run s tr) j)) <= List.length (errChan (task s j)))%nat.
Proof.
  revert s. induction tr as [|ev tr IH]; intros s H;
    [split; [exact H|apply Nat.le_refl]|].
  rewrite run_cons.
  destruct (las_returned_frozen s ev j H) as [H1 H2].
  destruct (IH _ H1) as [H3 H4]. split; [exact H3|].
  eapply Nat.le_trans; eassumption.
Qed.

(** Signals, requests and the connections of clients never crash the
    process: a crash comes from a goroutine of the accept loop only. *)
Lemma crash_only_from_accept_loop (s : State) (ev : Event) :
  crashed s = None ->
  match ev with
  | LasStart _ | Bind _ _ | AcceptError _ _ => True
  | _ => crashed (step s ev) = None
  end.
Proof.
  intros H. unfold step. rewrite H.
  destruct ev; try exact I; try destruct i; unfold_step; simpl in *; break_all.
Qed.

(** ** The invariant of a run *)

Lemma task_set_same (s : State) (i : TaskId) (t : Task) : task (set_task s i t) i = t.
Proof. now destruct i. Qed.

Lemma task_set_other (s : State) (i j : TaskId) (t : Task) :
  i <> j -> task (set_task s i t) j = task s j.
Proof. destruct i, j; simpl; congruence. Qed.

Lemma Inv_start (sv : Server) (parent : Context) (e : Entropy) (fs : FileSystem) :
  wf_context parent -> Inv (Run_start sv parent e fs).
Proof.
  intros H. unfold Inv, Run_start, derive. simpl.
  splits; auto; try congruence.
  intros i. destruct i; unfold task_ok; simpl; splits;
    try contradiction; try lia; try congruence;
    (split; [discriminate|intros [r Hr]; discriminate]).
Qed.

Lemma wf_cancel (c : Context) (e : error) :
  wf_context c -> wf_context (cancel c e).
Proof.
  unfold wf_context, cancel. intros H.
  destruct (Done c) eqn:Hd; simpl; [rewrite Hd; exact H|congruence].
Qed.

Lemma Shutdown_poll_done (lnerr : goerror) (c : Context) (t : Z) (sv : ServerState) :
  Done c = true ->
  exists r, fst (Shutdown_poll lnerr c t sv) = Some r /\
            (r = lnerr \/ r = Err c).
Proof.
  intros H. unfold Shutdown_poll, closeIdleConns. rewrite H.
  destruct (forallb (idle t) (activeConn sv)); simpl; eauto.
Qed.

(** What the steps of the accept-loop goroutine keep of a task. *)
Section TaskInvariant.

Variable i : TaskId.
Variable t : Task.
Hypothesis Ht : task_ok i t.

Lemma task_ok_not_started : las t <> LasReturned -> errChan t = [].
Proof.
  intros Hl. destruct Ht as (_ & _ & _ & H & _).
  destruct (errChan t) eqn:He; [reflexivity|].
  exfalso. apply Hl, H. congruence.
Qed.

Lemma task_ok_with_las (l : LasState) (b : bool) :
  las t <> LasReturned -> task_ok i (with_las t l b).
Proof.
  intros Hl. pose proof (task_ok_not_started Hl) as He.
  destruct Ht as (H1 & H2 & H3 & H4 & H5).
  unfold task_ok, with_las. simpl. rewrite He. simpl.
  splits; try assumption; try contradiction; try lia; try congruence;
    apply H5.
Qed.

Lemma task_ok_with_srv (sv : ServerState) : task_ok i (with_srv t sv).
Proof. exact Ht. Qed.

Lemma task_ok_goroutine_returns (t' : Task) (err : goerror) :
  las t <> LasReturned ->
  goroutine_returns i t err = Ok t' -> task_ok i t'.
Proof.
  intros Hl Hg. pose proof (task_ok_not_started Hl) as He.
  destruct Ht as (H1 & H2 & H3 & H4 & H5).
  unfold goroutine_returns in Hg.
  destruct (task_report i err) as [e|] eqn:Hr.
  - destruct (errChanClosed t) eqn:Hc; [discriminate|].
    injection Hg as <-. unfold task_ok. simpl. rewrite He. simpl.
    splits; try assumption; try lia.
    + intros e' [<-|[]].
      destruct i, err as [e0|]; simpl in *; try discriminate;
        destruct (negb _) eqn:Hn; try discriminate;
        injection Hr as <-; now rewrite Hn.
    + reflexivity.
  - injection Hg as <-. unfold task_ok, with_las. simpl. rewrite He. simpl.
    splits; try assumption; try contradiction; try lia; apply H5.
Qed.

End TaskInvariant.

(** Every step keeps the invariant. *)
Section RunInvariant.

Variable s : State.
Hypothesis HInv : Inv s.

Lemma Inv_set_task (i : TaskId) (t : Task) :
  task_ok i t -> Inv (set_task s i t).
Proof.
  intros Ht. destruct HInv as (H1 & H2 & H3 & H4 & H5 & H6).
  unfold Inv. splits; try assumption.
  intros j; destruct i, j; simpl; try exact Ht;
    first [apply (H6 HTTP) | apply (H6 HTTPS)].
Qed.

Lemma Inv_cancel_ctx (e : error) : Inv (cancel_ctx s e).
Proof.
  destruct HInv as (H1 & H2 & H3 & H4 & H5 & H6).
  pose proof (wf_cancel e H2) as Hc.
  assert (Hp : Done (propagate (cancel (ctx s) e) (gctx s)) = true /\
               wf_context (propagate (cancel (ctx s) e) (gctx s))).
  { unfold propagate. rewrite cancel_done.
    destruct (Err (cancel (ctx s) e)) as [e'|] eqn:He.
    - split; [apply cancel_done|now apply wf_cancel].
    - exfalso. apply Hc; [apply cancel_done|exact He]. }
  destruct Hp as [Hp1 Hp2].
  unfold Inv, cancel_ctx, set_contexts. simpl.
  splits; try assumption; intros; assumption.
Qed.

Lemma Inv_goroutine_step (i : TaskId) (err : goerror) :
  las (task s i) <> LasReturned -> Inv (goroutine_step s i err).
Proof.
  intros Hl. unfold goroutine_step.
  destruct (goroutine_returns i (task s i) err) as [t'|p] eqn:Hg.
  - apply Inv_set_task.
    eapply task_ok_goroutine_returns; try eassumption. apply HInv.
  - exact HInv.
Qed.

End RunInvariant.

Lemma Inv_errgroup_done (s : State) (r : goerror) :
  Inv s -> Inv (errgroup_done s r).
Proof.
  intros H. unfold errgroup_done.
  destruct r as [e|]; [|exact H].
  destruct (g_err s) eqn:Hg; [exact H|].
  destruct H as (H1 & H2 & H3 & H4 & H5 & H6).
  unfold Inv. simpl. splits; try assumption.
  - intros _. apply cancel_done.
  - now apply wf_cancel.
  - intros _. apply cancel_done.
Qed.

Lemma Inv_task_returns (s : State) (i : TaskId) (sv : ServerState)
    (chan : list error) (r : goerror) :
  Inv s ->
  (chan = errChan (task s i) \/ chan = tl (errChan (task s i))) ->
  Inv (task_returns s i sv chan r).
Proof.
  intros H Hc. unfold task_returns.
  apply Inv_errgroup_done, Inv_set_task; [exact H|].
  destruct H as (_ & _ & _ & _ & _ & H6). specialize (H6 i).
  destruct H6 as (H1 & H2 & H3 & H4 & H5).
  unfold task_ok. simpl.
  assert (Hin : forall e, In e chan -> In e (errChan (task s i))).
  { destruct Hc as [->| ->]; [auto|].
    destruct (errChan (task s i)); simpl; auto. }
  splits.
  - discriminate.
  - intros e He. apply H2, Hin, He.
  - destruct Hc as [->| ->]; [assumption|].
    destruct (errChan (task s i)); simpl in *; lia.
  - intros Hn. apply H4. destruct Hc as [->| ->]; [assumption|].
    destruct (errChan (task s i)); simpl in *; congruence.
  - split; eauto.
Qed.

Lemma Inv_step (s : State) (ev : Event) : Inv s -> Inv (step s ev).
Proof.
  intros H. unfold step.
  destruct (crashed s); [exact H|].
  destruct ev.
  - now apply Inv_cancel_ctx.
  - now apply Inv_cancel_ctx.
  - destruct (las (task s i)) eqn:Hl; try exact H.
    destruct (inShutdown (srv (task s i))).
    + apply Inv_goroutine_step; [exact H|congruence].
    + apply Inv_set_task; [exact H|].
      apply task_ok_with_las; [apply H|congruence].
  - destruct (las (task s i)) eqn:Hl; try exact H.
    destruct r.
    + apply Inv_goroutine_step; [exact H|congruence].
    + destruct (inShutdown (srv (task s i))).
      * apply Inv_goroutine_step; [exact H|congruence].
      * apply Inv_set_task; [exact H|].
        apply task_ok_with_las; [apply H|congruence].
  - destruct (las (task s i)) eqn:Hl; try exact H.
    destruct (inShutdown (srv (task s i)));
      (apply Inv_goroutine_step; [exact H|congruence]).
  - destruct (accepting (task s i)); [|exact H].
    apply Inv_set_task; [exact H|]. apply task_ok_with_srv, H.
  - unfold serve_step.
    destruct (accepting (task s i)); [|exact H].
    destruct (conn_serve _ _ _ _). exact H.
  - unfold select_step.
    destruct (status (task s i)) eqn:Hs.
    + assert (Hdone : Done (gctx s) = true -> Inv (done_branch s i sch)).
      { intros Hd. unfold done_branch, Shutdown.
        destruct (closeListeners _ _) as [lnerr srv2].
        destruct (@Shutdown_poll_done lnerr (gctx s) (now sch) srv2 Hd) as [r [Hr _]].
        destruct (Shutdown_poll _ _ _ _) as [res srv3]. simpl in Hr. subst res.
        apply Inv_task_returns; auto. }
      assert (Herr : forall e, Inv (err_branch s i e)).
      { intros e. unfold err_branch. apply Inv_task_returns; auto. }
      destruct (errChan (task s i)), (Done (gctx s)); auto.
      destruct (prefer_errChan sch); auto.
    + exfalso. destruct H as (_ & _ & _ & _ & _ & H6).
      destruct (H6 i) as (H1 & _). eapply H1; eassumption.
    + exact H.
  - unfold watcher_step.
    destruct (watcherDone s); [exact H|].
    pose proof H as (H1 & H2 & H3 & H4 & H5 & H6). rewrite H4. exact H.
Qed.

Lemma reachable_Inv (s : State) : reachable s -> Inv s.
Proof.
  induction 1 as [sv parent e fs Hp|s ev _ IH].
  - now apply Inv_start.
  - now apply Inv_step.
Qed.

(** ** Cancellation of the scope *)

Lemma gctx_done_step (s : State) (ev : Event) :
  Done (gctx s) = true -> Done (gctx (step s ev)) = true.
Proof. intros H. now rewrite gctx_frozen. Qed.

Lemma gctx_done_run (s : State) (tr : list Event) :
  Done (gctx s) = true -> Done (gctx (run s tr)) = true.
Proof. intros H. now rewrite gctx_frozen_run. Qed.

(** The group context is cancelled at most once along a trace: once if
    it is done at the end and was not at the start. *)
Lemma cancellations_closed_form (tr : list Event) :
  forall s,
    cancellations s tr =
    if negb (Done (gctx s)) && Done (gctx (run s tr)) then 1%nat else 0%nat.
Proof.
  induction tr as [|ev tr IH]; intros s.
  - simpl. now destruct (Done (gctx s)).
  - rewrite run_cons. simpl cancellations. rewrite IH.
    destruct (Done (gctx s)) eqn:Hs.
    + now rewrite (gctx_done_step s ev Hs).
    + destruct (Done (gctx (step s ev))) eqn:Hs'.
      * now rewrite (gctx_done_run _ tr Hs').
      * simpl. now destruct (Done (gctx (run (step s ev) tr))).
Qed.

(** The goroutine of lines 39-43 never gets past its receive. *)
Lemma watcher_never_fires (s : State) : reachable s -> step s Watcher = s.
Proof.
  intros H. apply reachable_Inv in H.
  destruct H as (_ & _ & _ & H4 & _).
  unfold step, watcher_step. rewrite H4.
  destruct (crashed s); [reflexivity|].
  now destruct (watcherDone s).
Qed.

(** C4. A termination signal cancels the signal context and the group
    context the tasks share, without a panic. When the shared context
    was already cancelled the signal leaves it as it was, a second
    signal changes nothing at all, no later step changes the cancelled
    context, and along any run the shared context goes from not done to
    done at most once: exactly once when it was not done before the
    signal. Tasks and the error of the group are not touched. *)
Theorem signal_cancels_once (s : State) (sig sig' : Signal) (tr : list Event) :
  reachable s ->
  crashed s = None ->
  Done (ctx (step s (SignalReceived sig))) = true /\
  Done (gctx (step s (SignalReceived sig))) = true /\
  crashed (step s (SignalReceived sig)) = None /\
  (Done (gctx s) = true -> gctx (step s (SignalReceived sig)) = gctx s) /\
  step (step s (SignalReceived sig)) (SignalReceived sig') =
    step s (SignalReceived sig) /\
  gctx (run (step s (SignalReceived sig)) tr) = gctx (step s (SignalReceived sig)) /\
  (cancellations s (SignalReceived sig :: tr) <= 1)%nat /\
  (Done (gctx s) = false -> cancellations s (SignalReceived sig :: tr) = 1%nat) /\
  g_err (step s (SignalReceived sig)) = g_err s /\
  (forall i, task (step s (SignalReceived sig)) i = task s i).
Proof.
  intros Hr Hc.
  pose proof (reachable_Inv (reachable_step (SignalReceived sig) Hr)) as Hi.
  assert (Hs : step s (SignalReceived sig) = cancel_ctx s Canceled)
    by (unfold step; now rewrite Hc).
  assert (H1 : Done (ctx (step s (SignalReceived sig))) = true)
    by (rewrite Hs; apply cancel_done).
  assert (H2 : Done (gctx (step s (SignalReceived sig))) = true)
    by (destruct Hi as (Hi1 & _); apply Hi1, H1).
  splits.
  - exact H1.
  - exact H2.
  - now rewrite Hs.
  - intros Hd. now apply gctx_frozen.
  - rewrite Hs in *. unfold step. simpl crashed. rewrite Hc.
    unfold cancel_ctx at 1. unfold set_contexts at 1.
    rewrite cancel_of_done by exact H1.
    rewrite propagate_of_done by exact H2.
    reflexivity.
  - now apply gctx_frozen_run.
  - rewrite cancellations_closed_form.
    destruct (negb _ && _); lia.
  - intros Hd. rewrite cancellations_closed_form, run_cons, Hd.
    now rewrite (gctx_done_run _ tr H2).
  - now rewrite Hs.
  - intros i. rewrite Hs. now destruct i.
Qed.

(** [main], interrupted right after its start. *)
Lemma signal_cancels_once_witness :
  Done (gctx (step main_start (SignalReceived SIGINT))) = true /\
  cancellations main_start
    [SignalReceived SIGINT; SignalReceived SIGTERM; SignalReceived SIGINT] = 1%nat.
Proof.
  destruct (@signal_cancels_once main_start SIGINT SIGTERM
              [SignalReceived SIGTERM; SignalReceived SIGINT])
    as (_ & H2 & _ & _ & _ & _ & _ & H8 & _).
  - apply reachable_start. discriminate.
  - reflexivity.
  - split; [exact H2|]. apply H8. reflexivity.
Defined.

(** ** Graceful shutdown *)

Lemma forallb_filter_neg {A} (f : A -> bool) (l : list A) :
  forallb f l = false ->
  forallb f (filter (fun c => negb (f c)) l) = false.
Proof.
  induction l as [|a l IH]; simpl; [discriminate|].
  destruct (f a) eqn:Ha; simpl.
  - exact IH.
  - intros _. now rewrite Ha.
Qed.

(** A task that leaves its [select] by the cancellation case while a
    connection is busy returns the error of the context. *)
Lemma shutdown_with_busy_connection (s : State) (i : TaskId) (sch : Sched) :
  crashed s = None ->
  status (task s i) = InSelect ->
  errChan (task s i) = [] ->
  Done (gctx s) = true ->
  forallb (idle (now sch)) (activeConn (srv (task s i))) = false ->
  status (task (step s (Select i sch)) i) = Returned (Err (gctx s)).
Proof.
  intros Hc Hs He Hd Hb.
  unfold step. rewrite Hc. unfold select_step. rewrite Hs, He, Hd.
  unfold done_branch, Shutdown, closeListeners, Shutdown_poll, SetKeepAlivesEnabled_false,
    closeIdleConns.
  cbn [snd activeConn].
  rewrite forallb_filter_neg; [|exact Hb].
  rewrite Hd. unfold task_returns, errgroup_done.
  destruct (Err (gctx s)); simpl g_err;
    destruct (g_err s); destruct i; reflexivity.
Qed.

(** C1. The failing run: both listeners are up and none of them fails,
    one request is in flight on the plaintext listener, and the process
    is sent SIGTERM. [httpServer] hands the context that is already
    cancelled to [Shutdown], which gives the busy connection no time and
    returns [context.Canceled]: the task returns that error, [Run]
    returns it, and [main] exits with status 1. *)
Theorem signal_during_request_is_an_error :
  let s := run main_start
             (both_listening ++
              [Connections HTTP [mkConn StateActive 100];
               SignalReceived SIGTERM;
               Select HTTP sched0; Select HTTPS sched0]) in
  (forall i, errChan (task s i) = []) /\
  crashed s = None /\
  status (task s HTTP) = Returned (Some Canceled) /\
  status (task s HTTPS) = Returned None /\
  Run_returns s = Some (Some Canceled) /\
  exit_status (Some Canceled) = 1.
Proof.
  vm_compute. splits; try reflexivity. intros []; reflexivity.
Qed.

(** Without a busy connection the same run is clean. *)
Lemma signal_without_request_is_clean :
  Run_returns
    (run main_start
       (both_listening ++
        [Connections HTTP [mkConn StateIdle 100];
         SignalReceived SIGTERM;
         Select HTTP sched0; Select HTTPS sched0])) = Some None.
Proof. reflexivity. Qed.

(** ** The error policy of the group *)

Lemma task_of_errgroup_done (s : State) (r : goerror) (j : TaskId) :
  task (errgroup_done s r) j = task s j.
Proof.
  unfold errgroup_done. destruct r; [|reflexivity].
  destruct (g_err s); destruct j; reflexivity.
Qed.

Lemma task_of_task_returns (s : State) (i : TaskId) (sv : ServerState)
    (chan : list error) (r : goerror) :
  status (task (task_returns s i sv chan r) i) = Returned r /\
  srv (task (task_returns s i sv chan r) i) = sv.
Proof.
  unfold task_returns. rewrite task_of_errgroup_done, task_set_same. now split.
Qed.

Lemma g_err_of_task_returns (s : State) (i : TaskId) (sv : ServerState)
    (chan : list error) (e : error) :
  g_err s = None ->
  g_err (task_returns s i sv chan (Some e)) = Some e /\
  Done (gctx (task_returns s i sv chan (Some e))) = true.
Proof.
  intros H. unfold task_returns, errgroup_done. simpl g_err. rewrite H. simpl.
  split; [reflexivity|apply cancel_done].
Qed.

(** A task returns at a step of its own [select] only. *)
Lemma returns_at_select (s : State) (ev : Event) (i : TaskId) (r : goerror) :
  (forall r', status (task s i) <> Returned r') ->
  status (task (step s ev) i) = Returned r ->
  crashed s = None /\
  exists sch sv chan,
    ev = Select i sch /\ step s ev = task_returns s i sv chan r.
Proof.
  intros Hn Hr.
  destruct (crashed s) eqn:Hc.
  { rewrite (crashed_step _ _ Hc) in Hr. now apply Hn in Hr. }
  split; [reflexivity|].
  assert (Hframe : forall j t,
            status t = status (task s j) ->
            status (task (set_task s j t) i) = Returned r -> False).
  { intros j t Ht H. destruct i, j; simpl in *;
      try (rewrite Ht in H); eapply Hn; eassumption. }
  unfold step in *. rewrite Hc in *.
  destruct ev as [sig|e|j|j b|j e|j cs|j q|j sch|].
  - exfalso. eapply Hn. destruct i; exact Hr.
  - exfalso. eapply Hn. destruct i; exact Hr.
  - exfalso.
    destruct (las (task s j)); try (eapply Hn; eassumption).
    destruct (inShutdown (srv (task s j))).
    + unfold goroutine_step, goroutine_returns in Hr.
      destruct (task_report j _).
      * destruct (errChanClosed (task s j)).
        -- eapply Hn. destruct i; exact Hr.
        -- eapply Hframe; [|exact Hr]. reflexivity.
      * eapply Hframe; [|exact Hr]. reflexivity.
    + eapply Hframe; [|exact Hr]. reflexivity.
  - exfalso.
    destruct (las (task s j)); try (eapply Hn; eassumption).
    assert (Hg : forall err,
              status (task (goroutine_step s j err) i) = Returned r -> False).
    { intros err H. unfold goroutine_step, goroutine_returns in H.
      destruct (task_report j _).
      - destruct (errChanClosed (task s j)).
        + eapply Hn. destruct i; exact H.
        + eapply Hframe; [|exact H]. reflexivity.
      - eapply Hframe; [|exact H]. reflexivity. }
    destruct b; [eapply Hg; eassumption|].
    destruct (inShutdown (srv (task s j))); [eapply Hg; eassumption|].
    eapply Hframe; [|exact Hr]. reflexivity.
  - exfalso.
    destruct (las (task s j)); try (eapply Hn; eassumption).
    assert (Hg : forall err,
              status (task (goroutine_step s j err) i) = Returned r -> False).
    { intros err H. unfold goroutine_step, goroutine_returns in H.
      destruct (task_report j _).
      - destruct (errChanClosed (task s j)).
        + eapply Hn. destruct i; exact H.
        + eapply Hframe; [|exact H]. reflexivity.
      - eapply Hframe; [|exact H]. reflexivity. }
    destruct (inShutdown (srv (task s j))); eapply Hg; eassumption.
  - exfalso.
    destruct (accepting (task s j)); [|eapply Hn; eassumption].
    eapply Hframe; [|exact Hr]. reflexivity.
  - exfalso. unfold serve_step in Hr.
    destruct (accepting (task s j)); [|eapply Hn; eassumption].
    destruct (conn_serve _ _ _ _). eapply Hn. destruct i; exact Hr.
  - assert (Hij : j = i).
    { destruct (TaskId_eqb j i) eqn:E; [destruct j, i; simpl in E; congruence|].
      exfalso. unfold select_step in Hr.
      assert (Hother : forall sv chan r0,
                status (task (task_returns s j sv chan r0) i) = Returned r -> False).
      { intros sv chan r0 H. unfold task_returns in H.
        rewrite task_of_errgroup_done in H.
        rewrite task_set_other in H by (destruct j, i; simpl in E; congruence).
        eapply Hn; eassumption. }
      destruct (status (task s j)).
      - unfold done_branch, Shutdown, err_branch in Hr.
        destruct (closeListeners _ _) as [lnerr srv2].
        destruct (Shutdown_poll _ _ _ _) as [[r0|] srv3];
          destruct (errChan (task s j)), (Done (gctx s));
          try destruct (prefer_errChan sch);
          try (eapply Hother; eassumption);
          try (eapply Hn; eassumption);
          try (rewrite task_set_other in Hr
                 by (destruct j, i; simpl in E; congruence);
               eapply Hn; eassumption).
      - destruct (Shutdown_poll _ _ _ _) as [[r0|] srv3].
        + eapply Hother; eassumption.
        + rewrite task_set_other in Hr by (destruct j, i; simpl in E; congruence).
          eapply Hn; eassumption.
      - eapply Hn; eassumption. }
    subst j. exists sch.
    unfold select_step in *.
    destruct (status (task s i)) eqn:Hs.
    + unfold done_branch, Shutdown, err_branch in *.
      destruct (closeListeners _ _) as [lnerr srv2].
      destruct (Shutdown_poll _ _ _ _) as [[r0|] srv3];
        destruct (errChan (task s i)) eqn:He, (Done (gctx s));
        try destruct (prefer_errChan sch);
        try (rewrite Hs in Hr; discriminate);
        try (rewrite task_set_same in Hr; simpl in Hr; discriminate);
        match type of Hr with
        | status (task (task_returns _ _ ?sv ?chan ?r0) _) = _ =>
            destruct (task_of_task_returns s i sv chan r0) as [H1 _];
            rewrite H1 in Hr; injection Hr as <-;
            exists sv, chan; split; reflexivity
        end.
    + destruct (Shutdown_poll _ _ _ _) as [[r0|] srv3].
      * destruct (task_of_task_returns s i srv3 (errChan (task s i)) r0) as [H1 _].
        rewrite H1 in Hr. injection Hr as <-.
        do 2 eexists. split; reflexivity.
      * rewrite task_set_same in Hr. simpl in Hr. rewrite Hs in Hr. discriminate.
    + exfalso. eapply Hn. reflexivity.
  - exfalso. unfold watcher_step in Hr.
    destruct (watcherDone s); [eapply Hn; eassumption|].
    destruct (signalChan s); [eapply Hn; eassumption|].
    eapply Hn. destruct i; exact Hr.
Qed.

(** Once the scope is cancelled the [select] of a task that still waits
    is enabled: the task returns, and through [Shutdown] when its error
    channel is empty. *)
Lemma select_returns_when_cancelled (s : State) (j : TaskId) (sch : Sched) :
  crashed s = None ->
  Done (gctx s) = true ->
  status (task s j) = InSelect ->
  (exists r, status (task (step s (Select j sch)) j) = Returned r) /\
  crashed (step s (Select j sch)) = None /\
  (errChan (task s j) = [] ->
   inShutdown (srv (task (step s (Select j sch)) j)) = true /\
   listening (srv (task (step s (Select j sch)) j)) = false).
Proof.
  intros Hc Hd Hs.
  pose proof (@crash_only_from_accept_loop s (Select j sch) Hc) as Hno.
  simpl in Hno. split; [|split; [exact Hno|]].
  - unfold step. rewrite Hc. unfold select_step. rewrite Hs, Hd.
    assert (Hdone : exists r, status (task (done_branch s j sch) j) = Returned r).
    { unfold done_branch, Shutdown.
      destruct (closeListeners _ _) as [lnerr srv2].
      destruct (@Shutdown_poll_done lnerr (gctx s) (now sch) srv2 Hd) as [r [Hr _]].
      destruct (Shutdown_poll _ _ _ _) as [res srv3]. simpl in Hr. subst res.
      exists r. apply task_of_task_returns. }
    assert (Herr : forall e, exists r, status (task (err_branch s j e) j) = Returned r).
    { intros e. eexists. apply task_of_task_returns. }
    destruct (errChan (task s j)); [exact Hdone|].
    destruct (prefer_errChan sch); [apply Herr|exact Hdone].
  - intros He. unfold step. rewrite Hc. unfold select_step. rewrite Hs, Hd, He.
    unfold done_branch, Shutdown.
    destruct (closeListeners _ _) as [lnerr srv2] eqn:Hcl.
    destruct (@Shutdown_poll_done lnerr (gctx s) (now sch) srv2 Hd) as [r [Hr _]].
    destruct (Shutdown_poll _ _ _ _) as [res srv3] eqn:Hp. simpl in Hr. subst res.
    destruct (task_of_task_returns s j srv3 (errChan (task s j)) r) as [_ ->].
    unfold closeListeners in Hcl. injection Hcl as _ <-.
    unfold Shutdown_poll, closeIdleConns in Hp.
    break_all; split; reflexivity.
Qed.

(** C2, as stated, fails when both listeners fail to bind: each task
    returns its own error, and only the first one is what [Run]
    returns; the second task leaves through its error channel, not
    through a shutdown. *)
Lemma second_error_is_dropped :
  let s := run main_start
             [LasStart HTTP; Bind HTTP (Some (OpError "bind :8081"));
              LasStart HTTPS; Bind HTTPS (Some (OpError "bind :8082"));
              Select HTTP sched0;
              Select HTTPS {| prefer_errChan := true; now := 100; close_err := None |}] in
  status (task s HTTP) = Returned (Some (OpError "bind :8081")) /\
  status (task s HTTPS) = Returned (Some (OpError "bind :8082")) /\
  Run_returns s = Some (Some (OpError "bind :8081")) /\
  Run_returns s <> Some (Some (OpError "bind :8082")) /\
  inShutdown (srv (task s HTTPS)) = false.
Proof.
  vm_compute. splits; try reflexivity. discriminate.
Qed.

(** C2, amended. The first non-nil error that a listener task returns
    becomes the error of the group, and the shared context is cancelled
    in the same step. From then on the error of the group does not
    change, so it is the value [Run] returns; and every task still in
    its [select] finds it enabled: it returns when it runs, through
    [Shutdown] unless an error of its own accept loop is waiting in its
    channel. When the other task was waiting, [Run] returns the error as
    soon as that task has run. *)
Theorem first_error_is_returned (s : State) (ev : Event) (i : TaskId) (e : error) :
  g_err s = None ->
  (forall r, status (task s i) <> Returned r) ->
  status (task (step s ev) i) = Returned (Some e) ->
  g_err (step s ev) = Some e /\
  Done (gctx (step s ev)) = true /\
  (forall tr, g_err (run (step s ev) tr) = Some e) /\
  (forall tr r, Run_returns (run (step s ev) tr) = Some r -> r = Some e) /\
  (forall tr j sch,
     crashed (run (step s ev) tr) = None ->
     status (task (run (step s ev) tr) j) = InSelect ->
     (exists r,
        status (task (step (run (step s ev) tr) (Select j sch)) j) = Returned r) /\
     (errChan (task (run (step s ev) tr) j) = [] ->
      inShutdown (srv (task (step (run (step s ev) tr) (Select j sch)) j)) = true /\
      listening (srv (task (step (run (step s ev) tr) (Select j sch)) j)) = false)) /\
  (forall j sch,
     crashed (step s ev) = None ->
     status (task (step s ev) j) = InSelect ->
     Run_returns (step (step s ev) (Select j sch)) = Some (Some e)).
Proof.
  intros Hg Hn Hr.
  destruct (@returns_at_select s ev i (Some e) Hn Hr) as [Hc (sch0 & sv & chan & -> & Hstep)].
  destruct (@g_err_of_task_returns s i sv chan e Hg) as [H1 H2].
  rewrite <- Hstep in H1, H2.
  splits.
  - exact H1.
  - exact H2.
  - intros tr. now apply g_err_frozen_run.
  - intros tr r H. unfold Run_returns in H.
    rewrite (@g_err_frozen_run _ tr _ H1) in H.
    destruct (crashed (run (step s (Select i sch0)) tr)); [discriminate|].
    destruct (status (http _)); try discriminate.
    destruct (status (https _)); try discriminate.
    congruence.
  - intros tr j sch Hc' Hs.
    destruct (@select_returns_when_cancelled (run (step s (Select i sch0)) tr) j sch)
      as (Ha & _ & Hb); auto.
    now apply gctx_done_run.
  - intros j sch Hc' Hs.
    destruct (@select_returns_when_cancelled (step s (Select i sch0)) j sch)
      as ([r Ha] & Hb & _); auto.
    pose proof (@returned_frozen (step s (Select i sch0)) (Select j sch) i _ Hr) as Hi.
    pose proof (@g_err_frozen (step s (Select i sch0)) (Select j sch) _ H1) as Hg'.
    unfold Run_returns. rewrite Hb, Hg'.
    destruct i, j; simpl in *; rewrite ?Hi, ?Ha in *; try reflexivity;
      congruence.
Qed.

(** The plaintext listener fails to bind while the other one serves. *)
Lemma first_error_is_returned_witness :
  Run_returns
    (step (step (run main_start
                   [LasStart HTTP; Bind HTTP (Some address_in_use);
                    LasStart HTTPS; Bind HTTPS None])
             (Select HTTP sched0))
       (Select HTTPS sched0)) = Some (Some address_in_use).
Proof.
  destruct (@first_error_is_returned
              (run main_start
                 [LasStart HTTP; Bind HTTP (Some address_in_use);
                  LasStart HTTPS; Bind HTTPS None])
              (Select HTTP sched0) HTTP address_in_use)
    as (_ & _ & _ & _ & _ & H).
  - reflexivity.
  - intros r. discriminate.
  - reflexivity.
  - apply (H HTTPS sched0); reflexivity.
Defined.

(** ** What a listener task reports *)

Lemma report_not_sentinel (i : TaskId) (err : goerror) (e : error) :
  task_report i err = Some e -> err = Some e /\ e <> ErrServerClosed.
Proof.
  destruct i, err as [e0|]; simpl; try discriminate;
    destruct (negb _) eqn:Hn; try discriminate;
    intros H; injection H as <-; (split; [reflexivity|]);
    intros ->; discriminate.
Qed.

(** The goroutine of the accept loop sends the failure [e] of
    [net.Listen] or [Accept] on the empty, open error channel. *)
Lemma goroutine_reports (s : State) (i : TaskId) (e : error) :
  reachable s ->
  status (task s i) = InSelect ->
  las (task s i) <> LasReturned ->
  task_report i (Some e) = Some e ->
  crashed (goroutine_step s i (Some e)) = crashed s /\
  gctx (goroutine_step s i (Some e)) = gctx s /\
  status (task (goroutine_step s i (Some e)) i) = InSelect /\
  errChan (task (goroutine_step s i (Some e)) i) = [e].
Proof.
  intros Hr Hs Hl He.
  pose proof (reachable_Inv Hr) as (_ & _ & _ & _ & _ & H6).
  pose proof (task_ok_not_started (H6 i) Hl) as Hch.
  destruct (H6 i) as (_ & _ & _ & _ & H5).
  assert (Hcl : errChanClosed (task s i) = false).
  { destruct (errChanClosed (task s i)); [|reflexivity].
    destruct H5 as [H5 _]. destruct (H5 eq_refl) as [r Hr']. congruence. }
  unfold goroutine_step, goroutine_returns. rewrite He, Hcl, Hch.
  rewrite task_set_same. simpl. destruct i; auto.
Qed.

Lemma select_takes_error (s : State) (i : TaskId) (e : error) (sch : Sched) :
  crashed s = None ->
  status (task s i) = InSelect ->
  Done (gctx s) = false ->
  errChan (task s i) = [e] ->
  status (task (step s (Select i sch)) i) = Returned (Some e).
Proof.
  intros Hc Hs Hd He.
  unfold step. rewrite Hc. unfold select_step. rewrite Hs, He, Hd.
  apply task_of_task_returns.
Qed.

(** C5, as stated, fails in both directions. A bind failure that meets
    a cancelled scope can be dropped: the [select] may take the
    cancellation case and the task returns nil. And a task whose accept
    loop did not fail returns a non-nil error when [Shutdown] meets a
    busy connection. *)
Lemma failure_and_error_do_not_coincide :
  task_report HTTP (Some address_in_use) = Some address_in_use /\
  errChan (task (run main_start [LasStart HTTP; Bind HTTP (Some address_in_use)])
             HTTP) = [address_in_use] /\
  status (task (run main_start
                  [LasStart HTTP; Bind HTTP (Some address_in_use);
                   SignalReceived SIGINT; Select HTTP sched0]) HTTP)
    = Returned None /\
  errChan (task (run main_start
                   (both_listening ++
                    [Connections HTTPS [mkConn StateActive 100];
                     SignalReceived SIGINT])) HTTPS) = [] /\
  status (task (run main_start
                  (both_listening ++
                   [Connections HTTPS [mkConn StateActive 100];
                    SignalReceived SIGINT; Select HTTPS sched0])) HTTPS)
    = Returned (Some Canceled).
Proof. vm_compute. splits; reflexivity. Qed.

(** C5, amended. The intentional-close sentinel is never sent on the
    error channel of a task, which holds at most one error. A failure of
    [net.Listen] or of [Accept] with another error, met while the task
    waits in its [select] and the scope is not cancelled, is the error
    the task returns; and a task that returns while the scope is not
    cancelled returns such an error of its accept loop. [ListenAndServe]
    is called once: after it has returned no step starts it again and
    nothing more is sent. *)
Theorem accept_loop_failure_is_reported (s : State) (i : TaskId) :
  reachable s ->
  task_report i (Some ErrServerClosed) = None /\
  (forall e, In e (errChan (task s i)) -> e <> ErrServerClosed) /\
  (List.length (errChan (task s i)) <= 1)%nat /\
  (forall e sch,
     crashed s = None -> status (task s i) = InSelect -> Done (gctx s) = false ->
     task_report i (Some e) = Some e ->
     las (task s i) = Binding ->
     status (task (step (step s (Bind i (Some e))) (Select i sch)) i)
       = Returned (Some e)) /\
  (forall e sch,
     crashed s = None -> status (task s i) = InSelect -> Done (gctx s) = false ->
     task_report i (Some e) = Some e ->
     las (task s i) = Accepting -> inShutdown (srv (task s i)) = false ->
     status (task (step (step s (AcceptError i e)) (Select i sch)) i)
       = Returned (Some e)) /\
  (forall sch r,
     status (task s i) = InSelect -> Done (gctx s) = false ->
     status (task (step s (Select i sch)) i) = Returned r ->
     exists e, r = Some e /\ errChan (task s i) = [e] /\ e <> ErrServerClosed) /\
  (forall tr,
     las (task s i) = LasReturned ->
     las (task (run s tr) i) = LasReturned /\
     (List.length (errChan (task (run s tr) i))
      <= List.length (errChan (task s i)))%nat).
Proof.
  intros Hr.
  pose proof (reachable_Inv Hr) as (_ & _ & _ & _ & _ & H6).
  destruct (H6 i) as (_ & H2 & H3 & _ & _).
  splits.
  - destruct i; reflexivity.
  - intros e He. apply H2 in He. now apply report_not_sentinel in He.
  - exact H3.
  - intros e sch Hc Hs Hd He Hl.
    assert (Hstep : step s (Bind i (Some e)) = goroutine_step s i (Some e))
      by (unfold step; now rewrite Hc, Hl).
    destruct (@goroutine_reports s i e Hr Hs ltac:(congruence) He)
      as (G1 & G2 & G3 & G4).
    rewrite Hstep. apply select_takes_error; congruence.
  - intros e sch Hc Hs Hd He Hl Hsh.
    assert (Hstep : step s (AcceptError i e) = goroutine_step s i (Some e))
      by (unfold step; now rewrite Hc, Hl, Hsh).
    destruct (@goroutine_reports s i e Hr Hs ltac:(congruence) He)
      as (G1 & G2 & G3 & G4).
    rewrite Hstep. apply select_takes_error; congruence.
  - intros sch r Hs Hd Hret.
    unfold step in Hret.
    destruct (crashed s); [congruence|].
    unfold select_step in Hret. rewrite Hs, Hd in Hret.
    destruct (errChan (task s i)) as [|e l] eqn:Hch; [congruence|].
    destruct (task_of_task_returns s i (srv (task s i)) (tl (e :: l)) (Some e))
      as [Hst _].
    unfold err_branch in Hret. rewrite Hch, Hst in Hret. injection Hret as <-.
    exists e. split; [reflexivity|]. split.
    + destruct l; [reflexivity|simpl in H3; lia].
    + assert (He : In e (e :: l)) by now left.
      apply H2 in He. now apply report_not_sentinel in He.
  - intros tr Hl. now apply las_returned_frozen_run.
Qed.

(** The plaintext listener fails to bind while nothing else happens. *)
Lemma accept_loop_failure_is_reported_witness :
  status (task (step (step (run main_start [LasStart HTTP])
                        (Bind HTTP (Some address_in_use)))
                  (Select HTTP sched0)) HTTP)
    = Returned (Some address_in_use).
Proof.
  destruct (@accept_loop_failure_is_reported (run main_start [LasStart HTTP]) HTTP)
    as (_ & _ & _ & H & _).
  - apply reachable_run, reachable_start. discriminate.
  - apply H; reflexivity.
Defined.

(** ** Faults of request handlers *)

Lemma serve_error_step (s : State) :
  crashed s = None ->
  accepting (task s HTTP) = true ->
  step s (Serve HTTP get_error) =
  {| self := self s; ctx := ctx s; gctx := gctx s; g_err := g_err s;
     http := http s; https := https s;
     signalChan := signalChan s; watcherDone := watcherDone s;
     crashed := crashed s; rng := rng s; files := files s;
     replies := replies s ++ [(HTTP, get_error, ConnectionClosed simulated_crash)] |}.
Proof.
  intros Hc Ha. unfold step, serve_step. rewrite Hc, Ha.
  reflexivity.
Qed.

Lemma serve_errors_run (n : nat) :
  forall s,
    crashed s = None ->
    accepting (task s HTTP) = true ->
    crashed (run s (repeat (Serve HTTP get_error) n)) = None /\
    (forall j, task (run s (repeat (Serve HTTP get_error) n)) j = task s j) /\
    g_err (run s (repeat (Serve HTTP get_error) n)) = g_err s /\
    gctx (run s (repeat (Serve HTTP get_error) n)) = gctx s /\
    rng (run s (repeat (Serve HTTP get_error) n)) = rng s /\
    files (run s (repeat (Serve HTTP get_error) n)) = files s /\
    self (run s (repeat (Serve HTTP get_error) n)) = self s /\
    replies (run s (repeat (Serve HTTP get_error) n)) =
      replies s ++ repeat (HTTP, get_error, ConnectionClosed simulated_crash) n.
Proof.
  induction n as [|n IH]; intros s Hc Ha.
  - simpl. rewrite app_nil_r. splits; auto.
  - simpl repeat. rewrite run_cons, (serve_error_step s Hc Ha).
    match goal with
    | |- context [run ?s1 _] =>
        destruct (IH s1 Hc Ha) as (I1 & I2 & I3 & I4 & I5 & I6 & I7 & I8)
    end.
    splits; try assumption.
    rewrite I8. simpl replies. now rewrite <- app_assoc.
Qed.

(** No step reads the log of replies: from a state with another log a
    step does the same, and adds the same replies. *)
Lemma step_with_replies (s : State) (log : list (TaskId * Request * Reply))
    (ev : Event) :
  exists d,
    replies (step s ev) = replies s ++ d /\
    step (with_replies s log) ev = with_replies (step s ev) (log ++ d).
Proof.
  destruct s as [sv c g ge t1 t2 sc wd cr rg fs rp].
  destruct cr as [p|].
  - exists []. unfold step, with_replies. simpl. now rewrite !app_nil_r.
  - destruct ev as [sig|e|j|j b|j e|j cs|j q|j sch|].
    7:{ unfold step, with_replies, serve_step. cbn [crashed].
        change (task _ j) with (match j with HTTP => t1 | HTTPS => t2 end).
        destruct (accepting _).
        - cbn [files self rng replies].
          destruct (conn_serve _ _ _ _) as [reply rng'].
          exists [(j, q, reply)]. split; reflexivity.
        - exists []. cbn. now rewrite !app_nil_r. }
    all: exists []; rewrite !app_nil_r;
      try destruct j; unfold_step; simpl; break_all; now split.
Qed.

Lemma run_with_replies (tr : list Event) :
  forall (s : State) (log : list (TaskId * Request * Reply)),
  exists d,
    replies (run s tr) = replies s ++ d /\
    run (with_replies s log) tr = with_replies (run s tr) (log ++ d).
Proof.
  induction tr as [|ev tr IH]; intros s log.
  - exists []. rewrite !app_nil_r. now split.
  - rewrite !run_cons.
    destruct (step_with_replies s log ev) as (d1 & H1 & H2).
    destruct (IH (step s ev) (log ++ d1)) as (d2 & H3 & H4).
    exists (d1 ++ d2). rewrite H2, H4, H3, H1, !app_assoc. now split.
Qed.

(** After [n] requests for [GET /error] the state is the one before
    them, with [n] closed connections more in the log. *)
Lemma serve_errors_state (n : nat) :
  forall s,
    crashed s = None ->
    accepting (task s HTTP) = true ->
    run s (repeat (Serve HTTP get_error) n) =
    with_replies s
      (replies s ++ repeat (HTTP, get_error, ConnectionClosed simulated_crash) n).
Proof.
  induction n as [|n IH]; intros s Hc Ha.
  - simpl. rewrite app_nil_r. now destruct s.
  - simpl repeat. rewrite run_cons, (serve_error_step s Hc Ha).
    rewrite IH by assumption.
    unfold with_replies. cbn [self ctx gctx g_err http https signalChan
      watcherDone crashed rng files replies].
    now rewrite <- app_assoc.
Qed.

(** C7. The panic of [errorHandler] stays inside the connection that
    asked for [GET /error]. After any number of such requests on the
    plaintext listener the client has seen its connection closed and
    nothing else has changed: the state of the run is the one before
    the requests but for the log of replies. The process has not
    crashed, the signal context and the scope of the group are as they
    were (the fault cancels nothing), both tasks are where they were,
    still accepting, and the group holds no new error. Whatever happens
    next happens as if the faulty requests had not been made: the run
    goes through the same states, but for the closed connections in the
    log, so no task and no [Run] ends because of them. And the next
    [GET /] on that listener is answered with status 200 and the
    greeting, and leaves process, contexts, tasks and group untouched
    as well. *)
Theorem handler_panic_is_contained (s : State) (n : nat) :
  crashed s = None ->
  accepting (task s HTTP) = true ->
  reads_in_range (len letters) (rng s) ->
  reads_succeed 10 (rng s) ->
  mux_Handler httpServer.mux get_error = Some ("GET /error", HandlerFunc errorHandler) /\
  (forall st, errorHandler get_error st = (Panic simulated_crash, st)) /\
  replies (run s (repeat (Serve HTTP get_error) n)) =
    replies s ++ repeat (HTTP, get_error, ConnectionClosed simulated_crash) n /\
  crashed (run s (repeat (Serve HTTP get_error) n)) = None /\
  (forall j, task (run s (repeat (Serve HTTP get_error) n)) j = task s j) /\
  accepting (task (run s (repeat (Serve HTTP get_error) n)) HTTP) = true /\
  g_err (run s (repeat (Serve HTTP get_error) n)) = g_err s /\
  Run_returns (run s (repeat (Serve HTTP get_error) n)) = Run_returns s /\
  ctx (run s (repeat (Serve HTTP get_error) n)) = ctx s /\
  gctx (run s (repeat (Serve HTTP get_error) n)) = gctx s /\
  run s (repeat (Serve HTTP get_error) n) =
    with_replies s
      (replies s ++ repeat (HTTP, get_error, ConnectionClosed simulated_crash) n) /\
  (forall tr, exists d,
     replies (run s tr) = replies s ++ d /\
     run s (repeat (Serve HTTP get_error) n ++ tr) =
       with_replies (run s tr)
         (replies s ++
          repeat (HTTP, get_error, ConnectionClosed simulated_crash) n ++ d)) /\
  (forall tr j,
     task (run s (repeat (Serve HTTP get_error) n ++ tr)) j = task (run s tr) j) /\
  (forall tr,
     gctx (run s (repeat (Serve HTTP get_error) n ++ tr)) = gctx (run s tr) /\
     crashed (run s (repeat (Serve HTTP get_error) n ++ tr)) = crashed (run s tr) /\
     Run_returns (run s (repeat (Serve HTTP get_error) n ++ tr))
       = Run_returns (run s tr)) /\
  exists tok,
    String.length tok = 10%nat /\
    replies (run s (repeat (Serve HTTP get_error) n ++ [Serve HTTP get_root])) =
      replies (run s (repeat (Serve HTTP get_error) n)) ++
      [(HTTP, get_root,
        Replied {| StatusCode := StatusOK;
                   Body := String.append "Hello World " tok |})] /\
    crashed (run s (repeat (Serve HTTP get_error) n ++ [Serve HTTP get_root])) = None /\
    ctx (run s (repeat (Serve HTTP get_error) n ++ [Serve HTTP get_root])) = ctx s /\
    gctx (run s (repeat (Serve HTTP get_error) n ++ [Serve HTTP get_root])) = gctx s /\
    g_err (run s (repeat (Serve HTTP get_error) n ++ [Serve HTTP get_root])) = g_err s /\
    (forall j, task (run s (repeat (Serve HTTP get_error) n ++ [Serve HTTP get_root])) j
               = task s j).
Proof.
  intros Hc Ha Hr Hs.
  destruct (@serve_errors_run n s Hc Ha) as (I1 & I2 & I3 & I4 & I5 & I6 & I7 & I8).
  pose proof (@serve_errors_state n s Hc Ha) as Hst.
  assert (Hcont : forall tr, exists d,
            replies (run s tr) = replies s ++ d /\
            run s (repeat (Serve HTTP get_error) n ++ tr) =
              with_replies (run s tr)
                (replies s ++
                 repeat (HTTP, get_error, ConnectionClosed simulated_crash) n ++ d)).
  { intros tr. rewrite run_app, Hst.
    destruct (run_with_replies tr s
                (replies s ++
                 repeat (HTTP, get_error, ConnectionClosed simulated_crash) n))
      as (d & H1 & H2).
    exists d. rewrite H2, <- app_assoc. now split. }
  assert (Hserve : conn_serve (files s) (Mux (task_server (self s) HTTP))
                     get_root (rng s) =
                   (Replied {| StatusCode := StatusOK;
                               Body := String.append "Hello World "
                                         (string_of_list_ascii
                                            (token_chars (rng s) (Z.to_nat 10))) |},
                    advance (rng s) (Z.to_nat 10))).
  { destruct (@generateRandomString_cases 10 (rng s) ltac:(lia) Hr)
      as [[_ He]|[Hn _]]; [|contradiction].
    unfold conn_serve, mux_ServeHTTP.
    change (mux_Handler (Mux (task_server (self s) HTTP)) get_root)
      with (Some ("GET /", HandlerFunc httpHandler)).
    cbn [ServeHTTP]. unfold httpHandler, mbind. now rewrite He. }
  assert (Hroot : run s (repeat (Serve HTTP get_error) n ++ [Serve HTTP get_root]) =
                  {| self := self s; ctx := ctx s; gctx := gctx s; g_err := g_err s;
                     http := http s; https := https s;
                     signalChan := signalChan s; watcherDone := watcherDone s;
                     crashed := None; rng := advance (rng s) (Z.to_nat 10);
                     files := files s;
                     replies :=
                       replies (run s (repeat (Serve HTTP get_error) n)) ++
                       [(HTTP, get_root,
                         Replied {| StatusCode := StatusOK;
                                    Body := String.append "Hello World "
                                              (string_of_list_ascii
                                                 (token_chars (rng s) (Z.to_nat 10))) |})]
                  |}).
  { rewrite run_app. simpl run at 1.
    unfold step at 1. rewrite I1. unfold serve_step. rewrite I2, Ha.
    rewrite I5, I6, I7, Hserve, Hst. unfold with_replies.
    cbn [self ctx gctx g_err http https signalChan watcherDone crashed rng
         files replies].
    now rewrite Hc. }
  splits; try assumption; try reflexivity.
  - now rewrite I2.
  - unfold Run_returns. rewrite I1, I3, Hc.
    change (http (run s (repeat (Serve HTTP get_error) n)))
      with (task (run s (repeat (Serve HTTP get_error) n)) HTTP).
    change (https (run s (repeat (Serve HTTP get_error) n)))
      with (task (run s (repeat (Serve HTTP get_error) n)) HTTPS).
    now rewrite !I2.
  - now rewrite Hst.
  - intros tr j. destruct (Hcont tr) as (d & _ & ->). now destruct j.
  - intros tr. destruct (Hcont tr) as (d & _ & ->). now splits.
  - exists (string_of_list_ascii (token_chars (rng s) (Z.to_nat 10))).
    rewrite Hroot. splits; reflexivity.
Qed.

(** [main] with the plaintext listener up, and three faulty requests:
    the process lives, the scope is not cancelled, no task has
    returned, and the next greeting is served. *)
Lemma handler_panic_is_contained_witness :
  crashed (run (run main_start both_listening)
             (repeat (Serve HTTP get_error) 3)) = None /\
  Done (gctx (run (run main_start both_listening)
                (repeat (Serve HTTP get_error) 3))) = false /\
  (forall j, status (task (run (run main_start both_listening)
                             (repeat (Serve HTTP get_error) 3)) j) = InSelect) /\
  exists tok,
    String.length tok = 10%nat /\
    replies (run (run main_start both_listening)
               (repeat (Serve HTTP get_error) 3 ++ [Serve HTTP get_root])) =
      replies (run (run main_start both_listening)
                 (repeat (Serve HTTP get_error) 3)) ++
      [(HTTP, get_root,
        Replied {| StatusCode := StatusOK;
                   Body := String.append "Hello World " tok |})].
Proof.
  destruct (@handler_panic_is_contained (run main_start both_listening) 3)
    as (_ & _ & _ & H4 & H5 & _ & _ & _ & _ & H10 & _ & _ & _ & _ & tok & H15 & H16 & _).
  - reflexivity.
  - reflexivity.
  - intros k v H. injection H as <-. rewrite len_letters. lia.
  - intros i _. discriminate.
  - split; [exact H4|]. split; [now rewrite H10|].
    split; [intros j; rewrite H5; now destruct j|].
    exists tok. split; [exact H15|exact H16].
Defined.

(* ===================================================================== *)
(** * Further properties *)
(* ===================================================================== *)

(** ** generateRandomString on any length *)

Lemma reads_succeed_le (st : Entropy) (k k' : nat) :
  (k' <= k)%nat -> reads_succeed k st -> reads_succeed k' st.
Proof. intros Hk H i Hi. apply H. lia. Qed.

Lemma reads_succeed_advance (st : Entropy) (k m : nat) :
  reads_succeed (k + m) st -> reads_succeed m (advance st k).
Proof.
  intros H i Hi. simpl. rewrite <- Nat.add_assoc. apply H. lia.
Qed.

Lemma advance_advance (st : Entropy) (k m : nat) :
  advance (advance st k) m = advance st (k + m).
Proof.
  unfold advance. simpl. f_equal.
  - lia.
  - now rewrite <- app_assoc, repeat_app.
Qed.

Lemma map_seq_from {A} (f : nat -> A) (m : nat) :
  forall k, map f (seq k m) = map (fun j => f (k + j)%nat) (seq 0 m).
Proof.
  induction m as [|m IH]; intros k; [reflexivity|].
  simpl. rewrite Nat.add_0_r. f_equal.
  rewrite IH, <- seq_shift, map_map.
  apply map_ext. intros j. f_equal. lia.
Qed.

Lemma token_chars_app (st : Entropy) (k m : nat) :
  token_chars st (k + m) = token_chars st k ++ token_chars (advance st k) m.
Proof.
  unfold token_chars. rewrite seq_app, map_app. f_equal.
  simpl. rewrite map_seq_from.
  apply map_ext. intros j. now rewrite Nat.add_assoc.
Qed.

Lemma string_of_list_app (a b : list ascii) :
  string_of_list_ascii (a ++ b) =
  String.append (string_of_list_ascii a) (string_of_list_ascii b).
Proof. induction a as [|c a IH]; simpl; congruence. Qed.

(** X1. For every length [n >= 0], when the [n] reads of the random
    source succeed (with values below 63), [generateRandomString(n)]
    returns a string of length exactly [n] whose characters all are
    digits, letters or the hyphen; it reads the source exactly [n]
    times, always from [crypto/rand]'s reader with bound 63, and the
    [i]-th character is the letter selected by the [i]-th value read. *)
Theorem generateRandomString_any_length (n : Z) (st : Entropy) :
  0 <= n ->
  reads_in_range (len letters) st ->
  reads_succeed (Z.to_nat n) st ->
  exists tok st',
    generateRandomString n st = (Ok tok, st') /\
    len tok = n /\
    (forall c, In c (list_ascii_of_string tok) -> symbol c = true) /\
    pos st' = (pos st + Z.to_nat n)%nat /\
    tape st' = tape st /\
    drawn st' = drawn st ++ repeat (crypto_rand_Reader, 63) (Z.to_nat n) /\
    (forall i, (i < Z.to_nat n)%nat ->
       exists v, tape st (pos st + i) = Some v /\
                 String.get i tok = String.get (Z.to_nat v) letters).
Proof.
  intros Hn Hr Hs.
  destruct (generateRandomString_cases Hn Hr) as [[_ He]|[Hf _]]; [|contradiction].
  exists (string_of_list_ascii (token_chars st (Z.to_nat n))), (advance st (Z.to_nat n)).
  splits; try reflexivity.
  - exact He.
  - unfold len. rewrite string_length_of_list, token_chars_length. lia.
  - intros c Hc. rewrite list_ascii_of_string_of_list_ascii in Hc.
    apply letters_symbols. revert c Hc. now apply token_chars_In.
  - intros i Hi.
    destruct (tape st (pos st + i)) as [v|] eqn:Hv;
      [|exfalso; apply (Hs i); assumption].
    assert (Hv' : 0 <= v < 63) by (rewrite <- len_letters; eapply Hr; eassumption).
    exists v. split; [reflexivity|].
    rewrite get_string_of_list, token_chars_nth, Hv by assumption.
    unfold letter_at.
    destruct (get_in_range letters (n := Z.to_nat v)) as [c Hc].
    { change (String.length letters) with 63%nat. lia. }
    now rewrite Hc.
Qed.

(** A token of length 3 from a source that always returns 7. *)
Lemma generateRandomString_any_length_witness :
  exists tok st', generateRandomString 3 sevens = (Ok tok, st') /\ len tok = 3.
Proof.
  destruct (@generateRandomString_any_length 3 sevens) as (tok & st' & H1 & H2 & _).
  - lia.
  - intros k v Hk. injection Hk as <-. rewrite len_letters. lia.
  - intros i _. discriminate.
  - exists tok, st'. split; assumption.
Defined.

(** X2. The edge lengths need no random source: [generateRandomString(0)]
    returns the empty string and a negative length panics in
    [make([]byte, n)], in both cases before the source is read, so
    whatever its state and even if it would fail. *)
Theorem generateRandomString_edge_lengths (n : Z) (st : Entropy) :
  n <= 0 ->
  generateRandomString n st =
  (if n <? 0 then Panic MakeSliceLen else Ok EmptyString, st).
Proof.
  intros Hn. unfold generateRandomString, mbind, lift, make_bytes.
  destruct (n <? 0) eqn:E; [reflexivity|].
  apply Z.ltb_ge in E. assert (n = 0) by lia. subst n. reflexivity.
Qed.

(** Length -1 on a source whose every read fails. *)
Lemma generateRandomString_edge_lengths_witness :
  generateRandomString (-1) (mkEntropy (fun _ => None) 0 []) =
  (Panic MakeSliceLen, mkEntropy (fun _ => None) 0 []).
Proof.
  apply (@generateRandomString_edge_lengths (-1) (mkEntropy (fun _ => None) 0 [])).
  lia.
Defined.

(** X3. Tokens compose: a token of length [n + m] is the token of
    length [n] followed by the token of length [m] that the next call
    returns. Two calls in a row never use the same read twice. *)
Theorem generateRandomString_concat (n m : Z) (st : Entropy) :
  0 <= n -> 0 <= m ->
  reads_in_range (len letters) st ->
  reads_succeed (Z.to_nat (n + m)) st ->
  exists a b st1 st2,
    generateRandomString n st = (Ok a, st1) /\
    generateRandomString m st1 = (Ok b, st2) /\
    generateRandomString (n + m) st = (Ok (String.append a b), st2) /\
    pos st1 = (pos st + Z.to_nat n)%nat /\
    pos st2 = (pos st1 + Z.to_nat m)%nat.
Proof.
  intros Hn Hm Hr Hs.
  rewrite Z2Nat.inj_add in Hs by assumption.
  destruct (generateRandomString_cases Hn Hr) as [[_ H1]|[Hf _]].
  2:{ exfalso. apply Hf. eapply reads_succeed_le; [|exact Hs]. lia. }
  assert (Hr1 : reads_in_range (len letters) (advance st (Z.to_nat n))) by exact Hr.
  destruct (generateRandomString_cases Hm Hr1) as [[_ H2]|[Hf _]].
  2:{ exfalso. apply Hf. now apply reads_succeed_advance. }
  assert (Hnm : 0 <= n + m) by lia.
  destruct (generateRandomString_cases Hnm Hr) as [[_ H3]|[Hf _]].
  2:{ exfalso. apply Hf. now rewrite Z2Nat.inj_add by assumption. }
  do 4 eexists. splits; try eassumption.
  - rewrite H3, Z2Nat.inj_add, token_chars_app, string_of_list_app by assumption.
    now rewrite advance_advance.
  - reflexivity.
  - reflexivity.
Qed.

(** Lengths 2 and 3 on a source that always returns 7. *)
Lemma generateRandomString_concat_witness :
  exists a b st1 st2,
    generateRandomString 2 sevens = (Ok a, st1) /\
    generateRandomString 3 st1 = (Ok b, st2) /\
    generateRandomString 5 sevens = (Ok (String.append a b), st2).
Proof.
  destruct (@generateRandomString_concat 2 3 sevens)
    as (a & b & st1 & st2 & H1 & H2 & H3 & _).
  - lia.
  - lia.
  - intros k v Hk. injection Hk as <-. rewrite len_letters. lia.
  - intros i _. discriminate.
  - exists a, b, st1, st2. splits; assumption.
Defined.

(** ** The two tests on what ListenAndServe returns *)

Lemma error_eqb_sentinel (e : error) :
  error_eqb e ErrServerClosed = true <-> e = ErrServerClosed.
Proof. destruct e; simpl; split; congruence. Qed.

(** X13. The two accept-loop goroutines test the error of
    [ListenAndServe] differently ([!=] in [httpServer], [errors.Is] in
    [httpsServer]), and the tests disagree on exactly one kind of
    error: one that wraps [http.ErrServerClosed], which [httpServer]
    reports as a failure and [httpsServer] drops. Whatever
    [httpsServer] reports, [httpServer] would report too. *)
Theorem report_tests_differ_on_wrapped_sentinel (err : goerror) :
  (forall e, httpsServer.report err = Some e -> httpServer.report err = Some e) /\
  (httpServer.report err = httpsServer.report err \/
   exists msg inner,
     err = Some (Wrapped msg inner) /\
     errors_Is inner ErrServerClosed = true /\
     httpServer.report err = err /\
     httpsServer.report err = None) /\
  (forall msg,
     httpServer.report (Some (Wrapped msg ErrServerClosed))
       = Some (Wrapped msg ErrServerClosed) /\
     httpsServer.report (Some (Wrapped msg ErrServerClosed)) = None).
Proof.
  splits.
  - intros e. destruct err as [e0|]; simpl; [|discriminate].
    destruct e0; simpl; try congruence.
    destruct (errors_Is e0 ErrServerClosed); simpl; congruence.
  - destruct err as [e0|]; [|now left].
    destruct e0; try (left; reflexivity).
    simpl. destruct (errors_Is e0 ErrServerClosed) eqn:E.
    + right. exists msg, e0. now splits.
    + now left.
  - intros msg. split; reflexivity.
Qed.

(** ** How a step changes the tasks and the group *)

Lemma status_of_task_returns (s : State) (i j : TaskId) (sv : ServerState)
    (chan : list error) (r : goerror) :
  status (task (task_returns s i sv chan r) j) =
  if TaskId_eqb i j then Returned r else status (task s j).
Proof.
  unfold task_returns. rewrite task_of_errgroup_done.
  destruct i, j; reflexivity.
Qed.

Lemma g_err_of_returns (s : State) (i : TaskId) (sv : ServerState)
    (chan : list error) (r : goerror) :
  g_err (task_returns s i sv chan r) =
  match g_err s with
  | Some e => Some e
  | None => r
  end.
Proof.
  unfold task_returns, errgroup_done. cbn [g_err set_task].
  destruct r, (g_err s) eqn:E; cbn [g_err set_task]; rewrite ?E; reflexivity.
Qed.

Lemma frame_of_task_returns (s : State) (i : TaskId) (sv : ServerState)
    (chan : list error) (r : goerror) :
  crashed (task_returns s i sv chan r) = crashed s /\
  replies (task_returns s i sv chan r) = replies s /\
  rng (task_returns s i sv chan r) = rng s /\
  signalChan (task_returns s i sv chan r) = signalChan s /\
  watcherDone (task_returns s i sv chan r) = watcherDone s /\
  (forall j, j <> i -> task (task_returns s i sv chan r) j = task s j) /\
  task (task_returns s i sv chan r) i =
    {| srv := sv; las := las (task s i); errChan := chan;
       errChanClosed := true; status := Returned r |}.
Proof.
  unfold task_returns, errgroup_done. cbn [g_err set_task].
  destruct r, (g_err s); simpl; splits; try reflexivity;
    try (intros j Hj; destruct i, j; simpl; congruence);
    destruct i; reflexivity.
Qed.

(** The [select] of a waiting task: it blocks, or it takes the error of
    its channel, or (the scope being cancelled) it shuts the server
    down and returns what [Shutdown] returns. *)
Lemma select_cases (s : State) (i : TaskId) (sch : Sched) :
  crashed s = None ->
  status (task s i) = InSelect ->
  (errChan (task s i) = [] /\ Done (gctx s) = false /\ step s (Select i sch) = s)
  \/
  (exists e rest,
     errChan (task s i) = e :: rest /\
     step s (Select i sch) = task_returns s i (srv (task s i)) rest (Some e))
  \/
  (Done (gctx s) = true /\
   exists sv r,
     step s (Select i sch) = task_returns s i sv (errChan (task s i)) r /\
     inShutdown sv = true /\ listening sv = false /\
     (r = Err (gctx s) \/ r = None \/ r = close_err sch)).
Proof.
  intros Hc Hs. unfold step. rewrite Hc. unfold select_step. rewrite Hs.
  assert (Hdone : Done (gctx s) = true ->
            exists sv r,
              done_branch s i sch = task_returns s i sv (errChan (task s i)) r /\
              inShutdown sv = true /\ listening sv = false /\
              (r = Err (gctx s) \/ r = None \/ r = close_err sch)).
  { intros Hd. unfold done_branch, Shutdown, closeListeners, Shutdown_poll,
      closeIdleConns. rewrite Hd.
    destruct (forallb _ _); do 2 eexists; (split; [reflexivity|]);
      (split; [reflexivity|]); (split; [reflexivity|]); auto.
    destruct (listening _); auto. }
  destruct (errChan (task s i)) as [|e rest] eqn:He, (Done (gctx s)) eqn:Hd.
  - right; right. split; [reflexivity|]. now apply Hdone.
  - left. now splits.
  - destruct (prefer_errChan sch).
    + right; left. exists e, rest. split; [reflexivity|].
      unfold err_branch. now rewrite He.
    + right; right. split; [reflexivity|]. now apply Hdone.
  - right; left. exists e, rest. split; [reflexivity|].
    unfold err_branch. now rewrite He.
Qed.

(** Everything but the [select] of a waiting task leaves the results of
    the tasks and the error of the group alone. *)
Lemma step_frame (s : State) (ev : Event) :
  Inv s ->
  (g_err (step s ev) = g_err s /\
   forall j, status (task (step s ev) j) = status (task s j))
  \/
  (exists i sch, ev = Select i sch /\ crashed s = None /\
                 status (task s i) = InSelect).
Proof.
  intros HI.
  destruct (crashed s) eqn:Hc.
  { left. rewrite (crashed_step _ _ Hc). now split. }
  destruct ev as [sig|e|i|i b|i e|i cs|i q|i sch|].
  8:{ destruct (status (task s i)) eqn:Hs.
      - right. now exists i, sch.
      - exfalso. destruct HI as (_ & _ & _ & _ & _ & H6).
        destruct (H6 i) as (H1 & _). eapply H1; eassumption.
      - left. unfold step. rewrite Hc. unfold select_step. rewrite Hs. now split. }
  all: left; unfold step; rewrite Hc.
  - split; [reflexivity|]. intros []; reflexivity.
  - split; [reflexivity|]. intros []; reflexivity.
  - destruct i; unfold_step; simpl; break_all; split; try reflexivity;
      intros []; reflexivity.
  - destruct i; unfold_step; simpl; break_all; split; try reflexivity;
      intros []; reflexivity.
  - destruct i; unfold_step; simpl; break_all; split; try reflexivity;
      intros []; reflexivity.
  - destruct i; unfold_step; simpl; break_all; split; try reflexivity;
      intros []; reflexivity.
  - unfold serve_step. destruct (accepting (task s i)); [|now split].
    destruct (conn_serve _ _ _ _). split; [reflexivity|]. intros []; reflexivity.
  - unfold watcher_step. destruct (watcherDone s); [now split|].
    destruct (signalChan s); [now split|].
    split; [reflexivity|]. intros []; reflexivity.
Qed.

(** ** What Run returns *)

Lemma aggregate_invariant (s : State) :
  reachable s ->
  (forall e, g_err s = Some e -> exists i, status (task s i) = Returned (Some e)) /\
  (g_err s = None -> forall i r, status (task s i) = Returned r -> r = None).
Proof.
  intros Hr. induction Hr as [sv parent e fs Hp|s ev Hr [IH1 IH2]].
  - split; [discriminate|]. intros _ [] r H; discriminate.
  - destruct (@step_frame s ev (reachable_Inv Hr)) as [[Hg Hs]|(i & sch & -> & Hc & Hi)].
    + rewrite Hg. split.
      * intros e He. destruct (IH1 e He) as [i Hi]. exists i. now rewrite Hs.
      * intros Hn i r. rewrite Hs. now apply IH2.
    + assert (Hret : forall sv chan r,
                step s (Select i sch) = task_returns s i sv chan r ->
                (forall e, g_err (step s (Select i sch)) = Some e ->
                   exists j, status (task (step s (Select i sch)) j) = Returned (Some e)) /\
                (g_err (step s (Select i sch)) = None ->
                 forall j r', status (task (step s (Select i sch)) j) = Returned r' ->
                              r' = None)).
      { intros sv chan r ->. rewrite g_err_of_returns. split.
        - intros e He. destruct (g_err s) as [e0|] eqn:Hg.
          + injection He as <-. destruct (IH1 e0 eq_refl) as [j Hj].
            exists j. rewrite status_of_task_returns.
            destruct (TaskId_eqb i j) eqn:E; [|exact Hj].
            destruct i, j; simpl in E; congruence.
          + subst r. exists i. rewrite status_of_task_returns.
            now destruct i.
        - intros Hn j r'. destruct (g_err s) eqn:Hg; [discriminate|]. subst r.
          rewrite status_of_task_returns.
          destruct (TaskId_eqb i j); [congruence|]. now apply IH2. }
      destruct (@select_cases s i sch Hc Hi)
        as [(_ & _ & ->)|[(e & rest & _ & H)|(_ & sv & r & H & _)]].
      * now split.
      * eapply Hret; eassumption.
      * eapply Hret; eassumption.
Qed.

(** X5. What [Run] returns is the result of its tasks: when it returns
    an error, one of the two listener tasks has returned exactly that
    error; when it returns nil, both have returned nil; and when both
    tasks have returned nil (and the process is alive) it does return
    nil. *)
Theorem Run_returns_a_task_error (s : State) :
  reachable s ->
  (forall e, Run_returns s = Some (Some e) ->
     exists i, status (task s i) = Returned (Some e)) /\
  (Run_returns s = Some None ->
     forall i, status (task s i) = Returned None) /\
  (crashed s = None ->
   (forall i, status (task s i) = Returned None) ->
   Run_returns s = Some None).
Proof.
  intros Hr. destruct (aggregate_invariant Hr) as [H1 H2].
  unfold Run_returns. splits.
  - intros e H. apply H1.
    destruct (crashed s); [discriminate|].
    destruct (status (http s)); try discriminate.
    destruct (status (https s)); try discriminate. congruence.
  - intros H i.
    destruct (crashed s); [discriminate|].
    destruct (status (http s)) eqn:Ea; try discriminate.
    destruct (status (https s)) eqn:Eb; try discriminate.
    injection H as Hg.
    destruct i; simpl; [rewrite Ea|rewrite Eb]; f_equal.
    + exact (H2 Hg HTTP r Ea).
    + exact (H2 Hg HTTPS r0 Eb).
  - intros Hc Hall. rewrite Hc.
    pose proof (Hall HTTP) as Ha. pose proof (Hall HTTPS) as Hb. simpl in Ha, Hb.
    rewrite Ha, Hb. f_equal.
    destruct (g_err s) as [e|] eqn:Hg; [|reflexivity].
    destruct (H1 e eq_refl) as [i Hi]. rewrite Hall in Hi. discriminate.
Qed.

(** The plaintext listener fails to bind and the other one shuts down. *)
Lemma Run_returns_a_task_error_witness :
  exists i,
    status (task (run main_start
                    [LasStart HTTP; Bind HTTP (Some address_in_use);
                     Select HTTP sched0; Select HTTPS sched0]) i)
    = Returned (Some address_in_use).
Proof.
  destruct (@Run_returns_a_task_error
              (run main_start
                 [LasStart HTTP; Bind HTTP (Some address_in_use);
                  Select HTTP sched0; Select HTTPS sched0])) as (H & _).
  - apply reachable_run, reachable_start. discriminate.
  - apply H. reflexivity.
Defined.

(** ** Serving until something happens *)

Lemma serving_set_task (s : State) (i : TaskId) (t : Task) :
  serving s ->
  status t = InSelect -> errChan t = [] -> inShutdown (srv t) = false ->
  serving (set_task s i t).
Proof.
  intros (Hc & Hd & Hg & Ht) H1 H2 H3.
  unfold serving. splits; try assumption.
  intros j. destruct i, j; simpl; try (now splits);
    first [exact (Ht HTTP) | exact (Ht HTTPS)].
Qed.

Lemma serving_quiet_step (s : State) (ev : Event) :
  Inv s -> serving s -> quiet ev = true -> serving (step s ev).
Proof.
  intros HI Hs Hq. pose proof Hs as (Hc & Hd & Hg & Ht).
  unfold step. rewrite Hc.
  destruct ev as [sig|e|i|i b|i e|i cs|i q|i sch|]; try discriminate.
  - destruct (Ht i) as (H1 & H2 & H3). rewrite H3.
    destruct (las (task s i)); try exact Hs.
    now apply serving_set_task.
  - destruct b; [discriminate|].
    destruct (Ht i) as (H1 & H2 & H3). rewrite H3.
    destruct (las (task s i)); try exact Hs.
    now apply serving_set_task.
  - destruct (Ht i) as (H1 & H2 & H3).
    destruct (accepting (task s i)); [|exact Hs].
    now apply serving_set_task.
  - unfold serve_step. destruct (accepting (task s i)); [|exact Hs].
    destruct (conn_serve _ _ _ _). exact Hs.
  - destruct (Ht i) as (H1 & H2 & H3).
    unfold select_step. now rewrite H1, H2, Hd.
  - destruct HI as (_ & _ & _ & H4 & _).
    unfold watcher_step. rewrite H4. now destruct (watcherDone s).
Qed.

Lemma serving_quiet_run (tr : list Event) :
  forall s, reachable s -> serving s -> forallb quiet tr = true ->
            serving (run s tr).
Proof.
  induction tr as [|ev tr IH]; intros s Hr Hs Hq; [exact Hs|].
  simpl in Hq. apply andb_true_iff in Hq. destruct Hq as [Hq1 Hq2].
  rewrite run_cons. apply IH; [now constructor| |exact Hq2].
  apply serving_quiet_step; [now apply reachable_Inv|exact Hs|exact Hq1].
Qed.

(** X6. [Run] does not return by itself. Started on a context that is
    not cancelled, and as long as no signal arrives, the caller's
    context is not cancelled and neither [net.Listen] nor [Accept]
    fails, whatever else happens (requests, connections, goroutines
    scheduled in any order) both tasks stay blocked in their [select],
    no error is recorded and [g.Wait()] does not return. *)
Theorem Run_blocks_while_quiet (sv : Server) (parent : Context) (e : Entropy)
    (fs : FileSystem) (tr : list Event) :
  Done parent = false ->
  forallb quiet tr = true ->
  serving (run (Run_start sv parent e fs) tr) /\
  Run_returns (run (Run_start sv parent e fs) tr) = None /\
  (forall i sch,
     step (run (Run_start sv parent e fs) tr) (Select i sch)
     = run (Run_start sv parent e fs) tr).
Proof.
  intros Hp Hq.
  assert (Hs : serving (run (Run_start sv parent e fs) tr)).
  { apply serving_quiet_run; [| |exact Hq].
    - apply reachable_start. intros H. congruence.
    - unfold serving, Run_start, derive. simpl. splits; auto.
      intros []; now splits. }
  split; [exact Hs|].
  destruct Hs as (Hc & Hd & Hg & Ht). split.
  - unfold Run_returns. rewrite Hc.
    destruct (Ht HTTP) as (H1 & _). simpl in H1. now rewrite H1.
  - intros i sch. destruct (Ht i) as (H1 & H2 & _).
    unfold step. rewrite Hc. unfold select_step. now rewrite H1, H2, Hd.
Qed.

(** [main] with both listeners up and a few requests. *)
Lemma Run_blocks_while_quiet_witness :
  Run_returns
    (run main_start
       (both_listening ++
        [Serve HTTP get_root; Serve HTTPS get_error; Select HTTP sched0;
         Watcher; Serve HTTP get_error; Select HTTPS sched0])) = None.
Proof.
  destruct (@Run_blocks_while_quiet main_server Background sevens no_files
              (both_listening ++
               [Serve HTTP get_root; Serve HTTPS get_error; Select HTTP sched0;
                Watcher; Serve HTTP get_error; Select HTTPS sched0]))
    as (_ & H & _).
  - reflexivity.
  - reflexivity.
  - exact H.
Defined.

(** ** Shutdown, clean and not *)

Lemma filter_all_idle (f : conn -> bool) (l : list conn) :
  forallb f l = true -> filter (fun c => negb (f c)) l = [].
Proof.
  induction l as [|a l IH]; simpl; [reflexivity|].
  destruct (f a); simpl; [exact IH|discriminate].
Qed.

(** The cancellation case when every connection is idle. *)
Lemma select_clean (s : State) (i : TaskId) (sch : Sched) :
  crashed s = None ->
  status (task s i) = InSelect ->
  errChan (task s i) = [] ->
  Done (gctx s) = true ->
  forallb (idle (now sch)) (activeConn (srv (task s i))) = true ->
  close_err sch = None ->
  step s (Select i sch) =
  set_task s i
    {| srv := {| inShutdown := true; listening := false; activeConn := [];
                 disableKeepAlives := true |};
       las := las (task s i); errChan := []; errChanClosed := true;
       status := Returned None |}.
Proof.
  intros Hc Hs He Hd Hi Hcl.
  unfold step. rewrite Hc. unfold select_step. rewrite Hs, He, Hd.
  unfold done_branch, Shutdown, closeListeners, Shutdown_poll,
    SetKeepAlivesEnabled_false, closeIdleConns.
  cbn [snd activeConn listening inShutdown disableKeepAlives].
  rewrite (filter_all_idle _ _ Hi), Hcl. cbn [filter forallb].
  rewrite He.
  now destruct (listening (srv (task s i))).
Qed.

(** X7. The shutdown is clean when nothing is in flight: if the scope
    is cancelled while both tasks wait, no accept loop has failed, every
    connection of both servers is idle when its task runs, and the
    listeners close without error, then both tasks return nil in
    whichever order they run, the servers are shut down with no
    connection left, and [Run] returns nil ([main] exits with 0). *)
Theorem shutdown_is_clean_when_idle (s : State) (i j : TaskId) (si sj : Sched) :
  i <> j ->
  crashed s = None ->
  g_err s = None ->
  Done (gctx s) = true ->
  (forall k, status (task s k) = InSelect /\ errChan (task s k) = []) ->
  forallb (idle (now si)) (activeConn (srv (task s i))) = true ->
  forallb (idle (now sj)) (activeConn (srv (task s j))) = true ->
  close_err si = None ->
  close_err sj = None ->
  Run_returns (run s [Select i si; Select j sj]) = Some None /\
  exit_status None = 0 /\
  (forall k,
     status (task (run s [Select i si; Select j sj]) k) = Returned None /\
     inShutdown (srv (task (run s [Select i si; Select j sj]) k)) = true /\
     listening (srv (task (run s [Select i si; Select j sj]) k)) = false /\
     activeConn (srv (task (run s [Select i si; Select j sj]) k)) = []).
Proof.
  intros Hij Hc Hg Hd Ht Hi Hj Hci Hcj.
  destruct (Ht i) as [Hsi Hei]. destruct (Ht j) as [Hsj Hej].
  simpl run. rewrite (@select_clean s i si Hc Hsi Hei Hd Hi Hci).
  match goal with
  | |- context [step ?s1 (Select j sj)] =>
      assert (H1 : step s1 (Select j sj) =
                   set_task s1 j
                     {| srv := {| inShutdown := true; listening := false;
                                  activeConn := [];
                                  disableKeepAlives := true |};
                        las := las (task s1 j); errChan := [];
                        errChanClosed := true; status := Returned None |})
  end.
  { apply select_clean; try assumption;
      try (rewrite task_set_other by exact Hij; assumption). }
  rewrite H1. clear H1.
  unfold Run_returns. destruct i, j; try congruence; simpl;
    rewrite Hc, Hg; splits; try reflexivity; intros []; now splits.
Qed.

(** [main], both listeners up, one idle connection, then SIGINT. *)
Lemma shutdown_is_clean_when_idle_witness :
  Run_returns
    (run (run main_start
            (both_listening ++
             [Connections HTTP [mkConn StateIdle 100]; SignalReceived SIGINT]))
       [Select HTTPS sched0; Select HTTP sched0]) = Some None.
Proof.
  destruct (@shutdown_is_clean_when_idle
              (run main_start
                 (both_listening ++
                  [Connections HTTP [mkConn StateIdle 100]; SignalReceived SIGINT]))
              HTTPS HTTP sched0 sched0) as (H & _);
    [discriminate|reflexivity|reflexivity|reflexivity|
     intros []; split; reflexivity|
     reflexivity|reflexivity|reflexivity|reflexivity|exact H].
Defined.

Lemma forallb_false_nonempty {A} (f : A -> bool) (l : list A) :
  forallb f l = false -> l <> [].
Proof. intros H ->. discriminate. Qed.

(** X8. The shutdown is not graceful when something is in flight:
    whenever a task takes the cancellation case while one of its
    connections is busy, [Shutdown] does not wait for it. The task
    returns the error of the cancelled context at once (never nil), the
    busy connections are left open, and from then on [Run] can only
    return an error, whatever happens next. *)
Theorem shutdown_with_busy_connection_fails (s : State) (i : TaskId) (sch : Sched) :
  reachable s ->
  crashed s = None ->
  status (task s i) = InSelect ->
  errChan (task s i) = [] ->
  Done (gctx s) = true ->
  forallb (idle (now sch)) (activeConn (srv (task s i))) = false ->
  exists e,
    Err (gctx s) = Some e /\
    status (task (step s (Select i sch)) i) = Returned (Some e) /\
    activeConn (srv (task (step s (Select i sch)) i)) <> [] /\
    (forall tr r,
       Run_returns (run (step s (Select i sch)) tr) = Some r ->
       r <> None /\ exit_status r = 1).
Proof.
  intros Hr Hc Hs He Hd Hb.
  pose proof (reachable_Inv Hr) as (_ & _ & Hwf & _).
  destruct (Err (gctx s)) as [e|] eqn:Hgc; [|exfalso; now apply Hwf].
  pose proof (@shutdown_with_busy_connection s i sch Hc Hs He Hd Hb) as Hst.
  rewrite Hgc in Hst.
  exists e. splits; [reflexivity|exact Hst| |].
  - unfold step. rewrite Hc. unfold select_step. rewrite Hs, He, Hd.
    unfold done_branch, Shutdown, closeListeners, Shutdown_poll,
      SetKeepAlivesEnabled_false, closeIdleConns.
    cbn [snd activeConn].
    rewrite (forallb_filter_neg _ _ Hb), Hd.
    destruct (task_of_task_returns s i
                {| inShutdown := true; listening := false;
                   activeConn :=
                     filter (fun c => negb (idle (now sch) c))
                       (filter (fun c => negb (idle (now sch) c))
                          (activeConn (srv (task s i))));
                   disableKeepAlives := true |}
                (errChan (task s i)) (Err (gctx s))) as [_ Hsv].
    cbn [inShutdown listening disableKeepAlives activeConn] in *.
    rewrite Hsv. cbn [activeConn].
    eapply forallb_false_nonempty.
    apply forallb_filter_neg. apply forallb_filter_neg. exact Hb.
  - assert (Hg : exists e', g_err (step s (Select i sch)) = Some e').
    { destruct (@select_cases s i sch Hc Hs)
        as [(_ & Hnd & _)|[(e0 & rest & Hch & _)|(_ & sv & r & Hstep & _)]];
        try congruence.
      rewrite Hstep in Hst |- *. rewrite g_err_of_returns.
      destruct (g_err s) as [e1|]; [eauto|].
      rewrite status_of_task_returns in Hst.
      replace (TaskId_eqb i i) with true in Hst by now destruct i.
      injection Hst as ->. eauto. }
    destruct Hg as [e' Hg]. intros tr r Hrun.
    unfold Run_returns in Hrun.
    rewrite (@g_err_frozen_run _ tr _ Hg) in Hrun.
    destruct (crashed (run (step s (Select i sch)) tr)); [discriminate|].
    destruct (status (http _)); try discriminate.
    destruct (status (https _)); try discriminate.
    injection Hrun as <-. split; [discriminate|reflexivity].
Qed.

(** The caller's deadline expires while a request is in flight on the
    second listener. *)
Lemma shutdown_with_busy_connection_fails_witness :
  status (task (step (run main_start
                        (both_listening ++
                         [Connections HTTPS [mkConn StateActive 100];
                          ParentDone DeadlineExceeded]))
                  (Select HTTPS sched0)) HTTPS)
  = Returned (Some DeadlineExceeded).
Proof.
  destruct (@shutdown_with_busy_connection_fails
              (run main_start
                 (both_listening ++
                  [Connections HTTPS [mkConn StateActive 100];
                   ParentDone DeadlineExceeded]))
              HTTPS sched0) as (e & H1 & H2 & _);
    [apply reachable_run, reachable_start; discriminate|
     reflexivity|reflexivity|reflexivity|reflexivity|reflexivity|].
  injection H1 as <-. exact H2.
Defined.

(** ** How the process dies *)

Lemma closed_or_stopped_step (s : State) (ev : Event) (i : TaskId) :
  closed_or_stopped (task s i) -> closed_or_stopped (task (step s ev) i).
Proof.
  intros [H|H].
  - left. unfold step. destruct (crashed s); [exact H|].
    destruct ev as [sig|e|j|j b|j e|j cs|j q|j sch|];
      try destruct j; destruct i; unfold_step; simpl in *; break_all.
  - right. now apply las_returned_frozen.
Qed.

(** A task that has returned has shut its server down, or its accept
    loop had ended before. *)
Lemma returned_is_closed (s : State) :
  reachable s ->
  forall i r, status (task s i) = Returned r -> closed_or_stopped (task s i).
Proof.
  intros Hr. induction Hr as [sv parent e fs Hp|s ev Hr IH].
  - intros [] r H; discriminate.
  - intros i r Hi.
    destruct (@step_frame s ev (reachable_Inv Hr))
      as [[_ Hs]|(i0 & sch & -> & Hc & Hi0)].
    + rewrite Hs in Hi. apply closed_or_stopped_step. eapply IH; eassumption.
    + pose proof (reachable_Inv Hr) as (_ & _ & _ & _ & _ & H6).
      destruct (H6 i0) as (_ & _ & _ & Hlas & _).
      assert (Hret : forall sv chan r0,
                step s (Select i0 sch) = task_returns s i0 sv chan r0 ->
                (inShutdown sv = true \/ las (task s i0) = LasReturned) ->
                closed_or_stopped (task (step s (Select i0 sch)) i)).
      { intros sv chan r0 Hstep Hcl.
        destruct (frame_of_task_returns s i0 sv chan r0)
          as (_ & _ & _ & _ & _ & Hother & Hsame).
        destruct (TaskId_eqb i0 i) eqn:E.
        - assert (i0 = i) by (destruct i0, i; simpl in E; congruence). subst i0.
          rewrite Hstep, Hsame. exact Hcl.
        - assert (Hne : i <> i0) by (destruct i0, i; simpl in E; congruence).
          rewrite Hstep, Hother by exact Hne.
          rewrite Hstep, status_of_task_returns, E in Hi.
          eapply IH; eassumption. }
      destruct (@select_cases s i0 sch Hc Hi0)
        as [(_ & _ & Hstep)|[(e & rest & Hch & Hstep)|(_ & sv & r0 & Hstep & Hsd & _)]].
      * rewrite Hstep in *. eapply IH; eassumption.
      * eapply Hret; [exact Hstep|]. right. apply Hlas. congruence.
      * eapply Hret; [exact Hstep|]. now left.
Qed.



(** ** A listener that has returned *)

Lemma accepting_closed (t : Task) : closed_or_stopped t -> accepting t = false.
Proof.
  unfold accepting. intros [H|H].
  - rewrite H. destruct (las t); try reflexivity. apply andb_false_r.
  - now rewrite H.
Qed.

Lemma replies_step (s : State) (ev : Event) :
  replies (step s ev) = replies s \/
  exists j q reply,
    ev = Serve j q /\ accepting (task s j) = true /\
    replies (step s ev) = replies s ++ [(j, q, reply)].
Proof.
  unfold step. destruct (crashed s); [now left|].
  destruct ev as [sig|e|j|j b|j e|j cs|j q|j sch|].
  7:{ unfold serve_step. destruct (accepting (task s j)) eqn:Ha; [|now left].
      destruct (conn_serve _ _ _ _) as [reply rng'] eqn:Hs.
      right. exists j, q, reply. now splits. }
  all: left; try destruct j; unfold_step; simpl; break_all.
Qed.

(** X10. A listener whose task has returned accepts no connection
    any more: its server has been shut down or its accept loop has
    ended, and it stays so whatever happens next, so that a client who
    connects from then on is not served and leaves no trace. This
    holds for both ways of returning, through [Shutdown] and through
    the error channel. (The connections accepted before the return are
    another matter: [Shutdown(ctx)] leaves the busy ones open.) *)
Theorem returned_listener_accepts_nothing (s : State) (i : TaskId) (r : goerror)
    (tr : list Event) :
  reachable s ->
  status (task s i) = Returned r ->
  closed_or_stopped (task (run s tr) i) /\
  accepting (task (run s tr) i) = false /\
  (forall q, step (run s tr) (Serve i q) = run s tr).
Proof.
  intros Hr Hs.
  assert (Hcl : closed_or_stopped (task (run s tr) i)).
  { eapply returned_is_closed.
    - apply reachable_run, Hr.
    - apply (@returned_frozen_run s tr i r Hs). }
  pose proof (accepting_closed Hcl) as Ha.
  splits; [exact Hcl|exact Ha|].
  intros q. unfold step. destruct (crashed (run s tr)); [reflexivity|].
  unfold serve_step. now rewrite Ha.
Qed.

(** The plaintext listener fails to bind and its task returns; later
    clients of that listener are not accepted. *)
Lemma returned_listener_accepts_nothing_witness :
  accepting
    (task (run (run main_start
                  [LasStart HTTP; Bind HTTP (Some address_in_use);
                   Select HTTP sched0])
             [Serve HTTP get_root; SignalReceived SIGINT; Serve HTTP get_error])
       HTTP)
  = false.
Proof.
  destruct (@returned_listener_accepts_nothing
              (run main_start
                 [LasStart HTTP; Bind HTTP (Some address_in_use);
                  Select HTTP sched0])
              HTTP (Some address_in_use)
              [Serve HTTP get_root; SignalReceived SIGINT; Serve HTTP get_error])
    as (_ & H & _);
    [apply reachable_run, reachable_start; discriminate|reflexivity|exact H].
Defined.

(** ** The watcher goroutine *)

Lemma watcher_not_done (s : State) : reachable s -> watcherDone s = false.
Proof.
  intros Hr. induction Hr as [sv parent e fs Hp|s ev Hr IH]; [reflexivity|].
  pose proof (reachable_Inv Hr) as (_ & _ & _ & H4 & _).
  unfold step. destruct (crashed s); [exact IH|].
  destruct ev as [sig|e|j|j b|j e|j cs|j q|j sch|];
    try destruct j; unfold_step; simpl; rewrite ?H4; break_all.
Qed.

(** X11. The goroutine of lines 39-43 is dead code at run time:
    [signalChan] is created but never registered with [signal.Notify],
    so in every state of every run the channel is empty, the goroutine
    is still blocked on its receive, and scheduling it changes nothing.
    Its message is never printed and its [cancel()] is never called;
    signals cancel the scope through [signal.NotifyContext] alone. *)
Theorem watcher_goroutine_never_runs (s : State) :
  reachable s ->
  signalChan s = [] /\
  watcherDone s = false /\
  step s Watcher = s /\
  (crashed s = None ->
   forall sig, Done (gctx (step s (SignalReceived sig))) = true).
Proof.
  intros Hr.
  pose proof (reachable_Inv Hr) as (_ & _ & _ & H4 & _).
  splits.
  - exact H4.
  - now apply watcher_not_done.
  - unfold step, watcher_step. rewrite H4.
    destruct (crashed s); [reflexivity|]. now destruct (watcherDone s).
  - intros Hc sig.
    pose proof (reachable_Inv (reachable_step (SignalReceived sig) Hr))
      as (H1 & _).
    apply H1. unfold step. rewrite Hc. apply cancel_done.
Qed.

(** [main] after two signals and several schedulings of the watcher. *)
Lemma watcher_goroutine_never_runs_witness :
  watcherDone
    (run main_start
       (both_listening ++
        [Watcher; SignalReceived SIGINT; Watcher; SignalReceived SIGTERM; Watcher]))
  = false.
Proof.
  destruct (@watcher_goroutine_never_runs
              (run main_start
                 (both_listening ++
                  [Watcher; SignalReceived SIGINT; Watcher;
                   SignalReceived SIGTERM; Watcher]))) as (_ & H & _);
    [apply reachable_run, reachable_start; discriminate|exact H].
Defined.

(** ** Greetings over the life of a run *)

Lemma root_dispatch (sv : Server) (i : TaskId) :
  mux_Handler (Mux (task_server sv i)) get_root
  = Some ("GET /", HandlerFunc httpHandler).
Proof. now destruct i. Qed.

(** What a client gets for [GET /], on either listener. *)
Lemma conn_serve_root (fs : FileSystem) (sv : Server) (i : TaskId) (st : Entropy) :
  conn_serve fs (Mux (task_server sv i)) get_root st =
  match generateRandomString 10 st with
  | (Ok tok, st') => (Replied (greeting tok), st')
  | (Panic p, st') => (ConnectionClosed p, st')
  end.
Proof.
  unfold conn_serve, mux_ServeHTTP. rewrite root_dispatch.
  cbn [ServeHTTP]. unfold httpHandler, mbind.
  now destruct (generateRandomString 10 st) as [[tok|p] st'].
Qed.

Lemma serve_root_step (s : State) (i : TaskId) :
  crashed s = None ->
  accepting (task s i) = true ->
  step s (Serve i get_root) =
  {| self := self s; ctx := ctx s; gctx := gctx s; g_err := g_err s;
     http := http s; https := https s;
     signalChan := signalChan s; watcherDone := watcherDone s;
     crashed := None;
     rng := snd (generateRandomString 10 (rng s)); files := files s;
     replies := replies s ++
       [(i, get_root,
         match fst (generateRandomString 10 (rng s)) with
         | Ok tok => Replied (greeting tok)
         | Panic p => ConnectionClosed p
         end)] |}.
Proof.
  intros Hc Ha. unfold step, serve_step. rewrite Hc, Ha, conn_serve_root.
  now destruct (generateRandomString 10 (rng s)) as [[tok|p] st'].
Qed.

(** X14. A failure of the random source inside [httpHandler] is
    contained like the panic of [errorHandler]: when one of the ten
    reads of a [GET /] fails, on either listener, the nil dereference
    is recovered by the connection's goroutine; that client sees its
    connection closed and nothing else changes -- the process lives,
    both tasks and the error of the group are as before, [Run] has not
    returned because of it. *)
Theorem random_source_failure_is_contained (s : State) (i : TaskId) :
  crashed s = None ->
  accepting (task s i) = true ->
  reads_in_range (len letters) (rng s) ->
  ~ reads_succeed 10 (rng s) ->
  replies (step s (Serve i get_root)) =
    replies s ++ [(i, get_root, ConnectionClosed NilDereference)] /\
  crashed (step s (Serve i get_root)) = None /\
  (forall j, task (step s (Serve i get_root)) j = task s j) /\
  g_err (step s (Serve i get_root)) = g_err s /\
  gctx (step s (Serve i get_root)) = gctx s /\
  Run_returns (step s (Serve i get_root)) = Run_returns s.
Proof.
  intros Hc Ha Hr Hf.
  destruct (@generateRandomString_cases 10 (rng s) ltac:(lia) Hr)
    as [[Hs _]|[_ [st' He]]]; [contradiction|].
  rewrite (serve_root_step s i Hc Ha), He. cbn [fst snd].
  splits; try reflexivity.
  unfold Run_returns. cbn [crashed http https g_err]. now rewrite Hc.
Qed.

(** The fourth read of the source fails during a request to the second
    listener. *)
Lemma random_source_failure_is_contained_witness :
  crashed
    (step (run (Run_start main_server Background
                  (mkEntropy (fun k => if (k =? 3)%nat then None else Some 7) 0 [])
                  no_files)
             both_listening)
       (Serve HTTPS get_root)) = None.
Proof.
  destruct (@random_source_failure_is_contained
              (run (Run_start main_server Background
                      (mkEntropy (fun k => if (k =? 3)%nat then None else Some 7) 0 [])
                      no_files)
                 both_listening)
              HTTPS) as (_ & H & _).
  - reflexivity.
  - reflexivity.
  - intros k v Hk. simpl in Hk. destruct (k =? 3)%nat; [discriminate|].
    injection Hk as <-. rewrite len_letters. lia.
  - intros Hs. apply (Hs 3%nat); [lia|reflexivity].
  - exact H.
Defined.

(** X4. Successive greetings never share a read of the random source:
    two [GET /] requests served one after the other, on the same or on
    different listeners, are answered with two tokens of length 10 that
    are the first and the second half of the twenty next values of the
    source -- together they are what one call
    [generateRandomString(20)] would have returned. *)
Theorem successive_greetings_use_fresh_reads (s : State) (i j : TaskId) :
  crashed s = None ->
  accepting (task s i) = true ->
  accepting (task s j) = true ->
  reads_in_range (len letters) (rng s) ->
  reads_succeed 20 (rng s) ->
  exists t1 t2,
    replies (run s [Serve i get_root; Serve j get_root]) =
      replies s ++ [(i, get_root, Replied (greeting t1));
                    (j, get_root, Replied (greeting t2))] /\
    String.length t1 = 10%nat /\ String.length t2 = 10%nat /\
    generateRandomString 20 (rng s) =
      (Ok (String.append t1 t2), rng (run s [Serve i get_root; Serve j get_root])) /\
    pos (rng (run s [Serve i get_root; Serve j get_root])) = (pos (rng s) + 20)%nat.
Proof.
  intros Hc Hi Hj Hr Hs.
  assert (Hs1 : reads_succeed 10 (rng s))
    by (eapply reads_succeed_le; [|exact Hs]; lia).
  assert (Hs2 : reads_succeed 10 (advance (rng s) 10))
    by (apply (@reads_succeed_advance (rng s) 10 10); exact Hs).
  destruct (@generateRandomString_cases 10 (rng s) ltac:(lia) Hr)
    as [[_ H1]|[Hf _]]; [|contradiction].
  assert (Hr1 : reads_in_range (len letters) (advance (rng s) 10)) by exact Hr.
  destruct (@generateRandomString_cases 10 (advance (rng s) 10) ltac:(lia) Hr1)
    as [[_ H2]|[Hf _]]; [|contradiction].
  destruct (@generateRandomString_cases 20 (rng s) ltac:(lia) Hr)
    as [[_ H3]|[Hf _]]; [|contradiction].
  change (Z.to_nat 10) with 10%nat in *. change (Z.to_nat 20) with 20%nat in *.
  exists (string_of_list_ascii (token_chars (rng s) 10)),
         (string_of_list_ascii (token_chars (advance (rng s) 10) 10)).
  simpl run. rewrite (serve_root_step s i Hc Hi), H1. cbn [fst snd].
  rewrite serve_root_step by (try reflexivity; exact Hj).
  cbn [rng replies]. rewrite H2. cbn [fst snd].
  splits.
  - now rewrite <- app_assoc.
  - now rewrite string_length_of_list, token_chars_length.
  - now rewrite string_length_of_list, token_chars_length.
  - rewrite H3. change 20%nat with (10 + 10)%nat.
    now rewrite token_chars_app, string_of_list_app, advance_advance.
  - simpl. lia.
Qed.

(** One greeting on each listener, from a source that always returns 7. *)
Lemma successive_greetings_use_fresh_reads_witness :
  exists t1 t2,
    replies (run (run main_start both_listening)
               [Serve HTTP get_root; Serve HTTPS get_root]) =
      [(HTTP, get_root, Replied (greeting t1));
       (HTTPS, get_root, Replied (greeting t2))] /\
    String.length t1 = 10%nat /\ String.length t2 = 10%nat.
Proof.
  destruct (@successive_greetings_use_fresh_reads
              (run main_start both_listening) HTTP HTTPS)
    as (t1 & t2 & H1 & H2 & H3 & _).
  - reflexivity.
  - reflexivity.
  - reflexivity.
  - intros k v Hk. injection Hk as <-. rewrite len_letters. lia.
  - intros k _. discriminate.
  - exists t1, t2. splits; assumption.
Defined.

(** ** Run on a context that is already cancelled *)

(** The cancellation case of a task whose server has no listener and
    no connection yet. *)
Lemma select_unbound (s : State) (i : TaskId) (sch : Sched) :
  crashed s = None ->
  status (task s i) = InSelect ->
  errChan (task s i) = [] ->
  Done (gctx s) = true ->
  activeConn (srv (task s i)) = [] ->
  listening (srv (task s i)) = false ->
  step s (Select i sch) =
  set_task s i
    {| srv := {| inShutdown := true; listening := false; activeConn := [];
                 disableKeepAlives := true |};
       las := las (task s i); errChan := []; errChanClosed := true;
       status := Returned None |}.
Proof.
  intros Hc Hs He Hd Ha Hl.
  unfold step. rewrite Hc. unfold select_step. rewrite Hs, He, Hd.
  unfold done_branch, Shutdown, closeListeners, Shutdown_poll,
    SetKeepAlivesEnabled_false, closeIdleConns.
  cbn [snd activeConn listening inShutdown disableKeepAlives].
  rewrite Ha, Hl, He. reflexivity.
Qed.

(** A server that is shutting down, or whose accept loop has ended,
    stays so and serves nothing. *)
Lemma closed_listener_is_silent (k : TaskId) (tr : list Event) :
  forall s,
    closed_or_stopped (task s k) ->
    closed_or_stopped (task (run s tr) k) /\
    from_listener k (replies (run s tr)) = from_listener k (replies s).
Proof.
  induction tr as [|ev tr IH]; intros s Hcl; [now split|].
  rewrite run_cons.
  destruct (IH (step s ev) (@closed_or_stopped_step s ev k Hcl)) as [H1 H2].
  split; [exact H1|]. rewrite H2.
  destruct (replies_step s ev) as [->|(j & q & reply & -> & Ha & ->)];
    [reflexivity|].
  unfold from_listener. rewrite filter_app. simpl.
  destruct (TaskId_eqb j k) eqn:E; [|apply app_nil_r].
  assert (j = k) by (destruct j, k; simpl in E; congruence). subst j.
  rewrite (@accepting_closed (task s k) Hcl) in Ha. discriminate.
Qed.

(** X15. Called with a context that is already done, [Run] can finish
    without ever listening: when the two tasks reach their [select]
    before their accept goroutines have started, both take the
    cancellation case at once and return nil, whatever the error of the
    context, and [Run] returns nil; an accept goroutine that starts
    afterwards finds the server shut down, so [ListenAndServe] returns
    [http.ErrServerClosed] without binding the address, and from then
    on nothing is sent on the error channel and no request is served. *)
Theorem Run_on_done_context (sv : Server) (parent : Context) (e : Entropy)
    (fs : FileSystem) (i j : TaskId) (si sj : Sched) :
  Done parent = true ->
  i <> j ->
  Run_returns (run (Run_start sv parent e fs) [Select i si; Select j sj])
    = Some None /\
  (forall k tr,
     las (task (run (Run_start sv parent e fs)
                  ([Select i si; Select j sj] ++ LasStart k :: tr)) k)
       = LasReturned /\
     errChan (task (run (Run_start sv parent e fs)
                      ([Select i si; Select j sj] ++ LasStart k :: tr)) k) = [] /\
     replies (run (Run_start sv parent e fs)
                ([Select i si; Select j sj] ++ LasStart k :: tr)) = []).
Proof.
  intros Hp Hij.
  set (s0 := Run_start sv parent e fs).
  assert (H0 : forall k, task s0 k = fresh_task) by (intros []; reflexivity).
  assert (H1 : step s0 (Select i si) =
               set_task s0 i
                 {| srv := {| inShutdown := true; listening := false;
                              activeConn := []; disableKeepAlives := true |};
                    las := las (task s0 i); errChan := []; errChanClosed := true;
                    status := Returned None |}).
  { apply select_unbound; rewrite ?H0; try reflexivity. exact Hp. }
  assert (H2 : step (step s0 (Select i si)) (Select j sj) =
               set_task (step s0 (Select i si)) j
                 {| srv := {| inShutdown := true; listening := false;
                              activeConn := []; disableKeepAlives := true |};
                    las := las (task (step s0 (Select i si)) j);
                    errChan := []; errChanClosed := true;
                    status := Returned None |}).
  { apply select_unbound; rewrite H1; rewrite ?task_set_other by exact Hij;
      rewrite ?H0; try reflexivity. exact Hp. }
  set (s2 := run s0 [Select i si; Select j sj]).
  assert (Hs2 : s2 = set_task (set_task s0 i
                   {| srv := {| inShutdown := true; listening := false;
                                activeConn := []; disableKeepAlives := true |};
                      las := NotStarted; errChan := []; errChanClosed := true;
                      status := Returned None |}) j
                   {| srv := {| inShutdown := true; listening := false;
                                activeConn := []; disableKeepAlives := true |};
                      las := NotStarted; errChan := []; errChanClosed := true;
                      status := Returned None |}).
  { unfold s2. simpl run. rewrite H2, H1.
    rewrite task_set_other by exact Hij. now rewrite !H0. }
  split.
  - fold s2. rewrite Hs2. destruct i, j; try congruence; reflexivity.
  - intros k tr. rewrite run_app. fold s2. rewrite run_cons.
    assert (Hk : task s2 k =
                 {| srv := {| inShutdown := true; listening := false;
                              activeConn := []; disableKeepAlives := true |};
                    las := NotStarted; errChan := []; errChanClosed := true;
                    status := Returned None |})
      by (rewrite Hs2; destruct i, j, k; try congruence; reflexivity).
    assert (Hc2 : crashed s2 = None) by (rewrite Hs2; reflexivity).
    assert (Hr2 : replies s2 = []) by (rewrite Hs2; reflexivity).
    assert (Hs3 : step s2 (LasStart k) =
                  set_task s2 k (with_las (task s2 k) LasReturned false)).
    { unfold step. rewrite Hc2, Hk. cbn [las srv inShutdown].
      unfold goroutine_step, goroutine_returns. rewrite Hk.
      now destruct k. }
    assert (Hl3 : las (task (step s2 (LasStart k)) k) = LasReturned)
      by (rewrite Hs3, task_set_same; reflexivity).
    assert (He3 : errChan (task (step s2 (LasStart k)) k) = [])
      by (rewrite Hs3, task_set_same, Hk; reflexivity).
    destruct (@las_returned_frozen_run _ tr k Hl3) as [Hl Hlen].
    splits.
    + exact Hl.
    + rewrite He3 in Hlen.
      destruct (errChan (task (run (step s2 (LasStart k)) tr) k));
        [reflexivity|simpl in Hlen; lia].
    + assert (Hall : forall k', closed_or_stopped (task (step s2 (LasStart k)) k')).
      { intros k'. left.
        assert (Hk' : inShutdown (srv (task s2 k')) = true)
          by (rewrite Hs2; destruct i, j, k'; try congruence; reflexivity).
        rewrite Hs3. destruct k, k'; simpl; try exact Hk';
          rewrite Hk; reflexivity. }
      assert (Hrep : replies (step s2 (LasStart k)) = [])
        by (rewrite Hs3; exact Hr2).
      destruct (@closed_listener_is_silent HTTP tr _ (Hall HTTP)) as [_ Ha].
      destruct (@closed_listener_is_silent HTTPS tr _ (Hall HTTPS)) as [_ Hb].
      rewrite Hrep in Ha, Hb. simpl in Ha, Hb.
      unfold from_listener in Ha, Hb.
      destruct (replies (run (step s2 (LasStart k)) tr)) as [|[[l q] rp] rest];
        [reflexivity|].
      exfalso. destruct l; simpl in Ha, Hb; discriminate.
Qed.

(** [Run] on a context whose deadline has passed. *)
Lemma Run_on_done_context_witness :
  Run_returns
    (run (Run_start main_server {| Done := true; Err := Some DeadlineExceeded |}
            sevens no_files)
       [Select HTTPS sched0; Select HTTP sched0]) = Some None.
Proof.
  destruct (@Run_on_done_context main_server
              {| Done := true; Err := Some DeadlineExceeded |}
              sevens no_files HTTPS HTTP sched0 sched0) as [H _];
    [reflexivity|discriminate|exact H].
Defined.

(** ** The exit status of main *)

(** X16. [main] exits with status 0 exactly when both listener tasks
    have returned nil, and with status 1 exactly when both have
    returned and one of them returned an error; as long as a task has
    not returned, or after the process has crashed, [main] does not
    reach either exit. *)
Theorem main_exit_status (s : State) :
  reachable s ->
  (main_exit s = Some 0 <->
   crashed s = None /\ forall i, status (task s i) = Returned None) /\
  (main_exit s = Some 1 <->
   crashed s = None /\
   (forall i, exists r, status (task s i) = Returned r) /\
   exists i e, status (task s i) = Returned (Some e)) /\
  (main_exit s = None <->
   crashed s <> None \/ exists i, forall r, status (task s i) <> Returned r).
Proof.
  intros Hr. destruct (aggregate_invariant Hr) as [H1 H2].
  unfold main_exit, Run_returns.
  destruct (crashed s) as [p|] eqn:Hc.
  { splits; split; try discriminate.
    - intros [H _]; discriminate.
    - intros [H _]; discriminate.
    - intros _. left. discriminate.
    - reflexivity. }
  destruct (status (http s)) as [|ln|ra] eqn:Ea.
  1,2: splits; split; try discriminate;
    try (intros [_ H]; specialize (H HTTP); simpl in H; congruence);
    try (intros (_ & H & _); destruct (H HTTP) as [r Hx]; simpl in Hx; congruence);
    try reflexivity;
    intros _; right; exists HTTP; intros r; simpl; congruence.
  destruct (status (https s)) as [|ln|rb] eqn:Eb.
  1,2: splits; split; try discriminate;
    try (intros [_ H]; specialize (H HTTPS); simpl in H; congruence);
    try (intros (_ & H & _); destruct (H HTTPS) as [r Hx]; simpl in Hx; congruence);
    try reflexivity;
    intros _; right; exists HTTPS; intros r; simpl; congruence.
  destruct (g_err s) as [e|] eqn:Hg; simpl.
  - destruct (H1 e eq_refl) as [i Hi].
    splits; split; try discriminate; try (intros _; reflexivity).
    + intros [_ H]. rewrite H in Hi. discriminate.
    + intros _. split; [reflexivity|]. split; [|eauto].
      intros []; simpl; eauto.
    + intros [H|[k H]]; [congruence|].
      exfalso. destruct k; simpl in H; eapply H; eassumption.
  - pose proof (H2 eq_refl HTTP _ Ea) as ->.
    pose proof (H2 eq_refl HTTPS _ Eb) as ->.
    splits; split; try discriminate; try (intros _; reflexivity).
    + intros _. split; [reflexivity|]. intros []; assumption.
    + intros (_ & _ & i & e & Hi). destruct i; simpl in Hi; congruence.
    + intros [H|[k H]]; [congruence|].
      exfalso. destruct k; simpl in H; eapply H; eassumption.
Qed.

(** [main] after a failed bind of the second listener. *)
Lemma main_exit_status_witness :
  main_exit (run main_start
               [LasStart HTTPS; Bind HTTPS (Some address_in_use);
                Select HTTPS sched0; Select HTTP sched0]) = Some 1.
Proof.
  destruct (@main_exit_status
              (run main_start
                 [LasStart HTTPS; Bind HTTPS (Some address_in_use);
                  Select HTTPS sched0; Select HTTP sched0])) as (_ & [_ H] & _).
  - apply reachable_run, reachable_start. discriminate.
  - apply H. splits.
    + reflexivity.
    + intros []; eexists; reflexivity.
    + exists HTTPS, address_in_use. reflexivity.
Defined.

(** ** Where the errors of Run come from *)

Lemma context_error_step (s : State) (ev : Event) (e : error) :
  Err (ctx (step s ev)) = Some e \/ Err (gctx (step s ev)) = Some e ->
  Err (ctx s) = Some e \/ Err (gctx s) = Some e \/ e = Canceled \/
  ev = ParentDone e.
Proof.
  unfold step. destruct (crashed s); [tauto|].
  destruct ev as [sig|e0|j|j b|j e0|j cs|j q|j sch|];
    try destruct j; unfold_step; unfold propagate, cancel; simpl;
    break_all; intuition congruence.
Qed.

Lemma errChan_step (s : State) (ev : Event) (i : TaskId) (e : error) :
  In e (errChan (task (step s ev) i)) ->
  In e (errChan (task s i)) \/
  ((ev = Bind i (Some e) \/ ev = AcceptError i e) /\
   task_report i (Some e) = Some e).
Proof.
  assert (Hgo : forall j err,
            In e (errChan (task (goroutine_step s j err) i)) ->
            In e (errChan (task s i)) \/
            (j = i /\ err = Some e /\ task_report i (Some e) = Some e)).
  { intros j err H. unfold goroutine_step, goroutine_returns in H.
    destruct (task_report j err) as [e'|] eqn:Hr.
    - destruct (errChanClosed (task s j)).
      + left. destruct i; exact H.
      + destruct j, i; simpl in H; auto;
          apply in_app_or in H; destruct H as [H|[<-|[]]]; auto;
          right; destruct (report_not_sentinel _ _ Hr) as [-> _]; auto.
    - left. destruct j, i; exact H. }
  assert (Hsent : forall j, task_report j (Some ErrServerClosed) = None)
    by (intros []; reflexivity).
  intros H. unfold step in H. destruct (crashed s); [now left|].
  destruct ev as [sig|e0|j|j b|j e0|j cs|j q|j sch|].
  - left. destruct i; exact H.
  - left. destruct i; exact H.
  - destruct (las (task s j)); try (now left).
    destruct (inShutdown (srv (task s j))).
    + apply Hgo in H. destruct H as [H|(_ & He & Hr)]; [now left|].
      injection He as <-. rewrite Hsent in Hr. discriminate.
    + left. destruct j, i; exact H.
  - destruct (las (task s j)); try (now left).
    destruct b as [e0|].
    + apply Hgo in H. destruct H as [H|(-> & He & Hr)]; [now left|].
      injection He as ->. right. auto.
    + destruct (inShutdown (srv (task s j))).
      * apply Hgo in H. destruct H as [H|(_ & He & Hr)]; [now left|].
        injection He as <-. rewrite Hsent in Hr. discriminate.
      * left. destruct j, i; exact H.
  - destruct (las (task s j)); try (now left).
    destruct (inShutdown (srv (task s j))).
    + apply Hgo in H. destruct H as [H|(_ & He & Hr)]; [now left|].
      injection He as <-. rewrite Hsent in Hr. discriminate.
    + apply Hgo in H. destruct H as [H|(-> & He & Hr)]; [now left|].
      injection He as ->. right. auto.
  - left. destruct (accepting (task s j)); [|exact H].
    destruct j, i; exact H.
  - left. unfold serve_step in H. destruct (accepting (task s j)); [|exact H].
    destruct (conn_serve _ _ _ _). destruct i; exact H.
  - left. unfold select_step in H.
    assert (Hret : forall sv chan r,
              (chan = errChan (task s j) \/ chan = tl (errChan (task s j))) ->
              In e (errChan (task (task_returns s j sv chan r) i)) ->
              In e (errChan (task s i))).
    { intros sv chan r Hch Hin.
      destruct (frame_of_task_returns s j sv chan r)
        as (_ & _ & _ & _ & _ & Hother & Hsame).
      destruct (TaskId_eqb j i) eqn:E.
      - assert (j = i) by (destruct j, i; simpl in E; congruence). subst j.
        rewrite Hsame in Hin. simpl in Hin.
        destruct Hch as [->| ->]; [exact Hin|].
        destruct (errChan (task s i)); [exact Hin|now right].
      - rewrite Hother in Hin by (destruct j, i; simpl in E; congruence).
        exact Hin. }
    destruct (status (task s j)).
    + unfold done_branch, err_branch in H.
      destruct (Shutdown _ _ _) as [lnerr [[r|] srv3]];
        destruct (errChan (task s j)) eqn:Hch, (Done (gctx s));
        try destruct (prefer_errChan sch);
        try exact H;
        try (eapply Hret; [|exact H]; rewrite ?Hch; simpl; auto);
        destruct j, i; simpl in H; rewrite ?Hch; try contradiction; exact H.
    + destruct (Shutdown_poll _ _ _ _) as [[r|] srv3].
      * eapply Hret; [|exact H]. auto.
      * destruct j, i; exact H.
    + exact H.
  - left. unfold watcher_step in H.
    destruct (watcherDone s); [exact H|].
    destruct (signalChan s); [exact H|]. destruct i; exact H.
Qed.

Lemma origin_app (parent : Context) (tr tr' : list Event) (i : TaskId) (e : error) :
  origin parent tr i e -> origin parent (tr ++ tr') i e.
Proof.
  unfold origin. intros [H|[H|[H|[[[H|H] Hr]|[sch [H Hc]]]]]].
  - now left.
  - right; now left.
  - right; right; left. apply in_or_app. now left.
  - right; right; right; left. split; [left; apply in_or_app; now left|exact Hr].
  - right; right; right; left. split; [right; apply in_or_app; now left|exact Hr].
  - right; right; right; right. exists sch. split; [apply in_or_app; now left|exact Hc].
Qed.

Lemma provenance (sv : Server) (parent : Context) (e0 : Entropy) (fs : FileSystem)
    (tr : list Event) :
  wf_context parent ->
  (forall e,
     Err (ctx (run (Run_start sv parent e0 fs) tr)) = Some e \/
     Err (gctx (run (Run_start sv parent e0 fs) tr)) = Some e ->
     e = Canceled \/ Err parent = Some e \/ In (ParentDone e) tr) /\
  (forall i e,
     In e (errChan (task (run (Run_start sv parent e0 fs) tr) i)) ->
     (In (Bind i (Some e)) tr \/ In (AcceptError i e) tr) /\
     task_report i (Some e) = Some e) /\
  (forall i e,
     status (task (run (Run_start sv parent e0 fs) tr) i) = Returned (Some e) ->
     origin parent tr i e).
Proof.
  intros Hwf. induction tr as [|ev tr (IHA & IHB & IHC)] using rev_ind.
  - splits.
    + intros e [H|H]; right; left; exact H.
    + intros [] e [].
    + intros [] e H; discriminate.
  - rewrite run_app. simpl run.
    set (s := run (Run_start sv parent e0 fs) tr) in *.
    assert (Hr : reachable s) by (apply reachable_run, reachable_start, Hwf).
    assert (HA : forall e,
              Err (ctx (step s ev)) = Some e \/ Err (gctx (step s ev)) = Some e ->
              e = Canceled \/ Err parent = Some e \/ In (ParentDone e) (tr ++ [ev])).
    { intros e H. apply context_error_step in H.
      destruct H as [H|[H|[H|H]]].
      - destruct (IHA e (or_introl H)) as [H'|[H'|H']]; auto.
        right; right. apply in_or_app. now left.
      - destruct (IHA e (or_intror H)) as [H'|[H'|H']]; auto.
        right; right. apply in_or_app. now left.
      - now left.
      - right; right. apply in_or_app. right. left. now symmetry. }
    splits.
    + exact HA.
    + intros i e H. apply errChan_step in H.
      destruct H as [H|[[H|H] Hrep]].
      * destruct (IHB i e H) as [[H'|H'] Hrep]; (split; [|exact Hrep]);
          [left|right]; apply in_or_app; now left.
      * split; [|exact Hrep]. left. apply in_or_app. right. left. now symmetry.
      * split; [|exact Hrep]. right. apply in_or_app. right. left. now symmetry.
    + intros i e Hst.
      destruct (@step_frame s ev (reachable_Inv Hr))
        as [[_ Hsame]|(i0 & sch & Hev & Hc & Hi0)].
      * rewrite Hsame in Hst. apply origin_app. now apply IHC.
      * subst ev.
        assert (Hother : forall sv' chan r,
                  step s (Select i0 sch) = task_returns s i0 sv' chan r ->
                  i0 <> i -> origin parent (tr ++ [Select i0 sch]) i e).
        { intros sv' chan r Hstep Hne. rewrite Hstep, status_of_task_returns in Hst.
          replace (TaskId_eqb i0 i) with false in Hst
            by (destruct i0, i; simpl; congruence).
          apply origin_app. now apply IHC. }
        destruct (@select_cases s i0 sch Hc Hi0)
          as [(_ & _ & Hstep)|[(e' & rest & Hch & Hstep)|
                               (_ & sv' & r & Hstep & _ & _ & Hres)]].
        -- rewrite Hstep in Hst. apply origin_app. now apply IHC.
        -- destruct (TaskId_eqb i0 i) eqn:E.
           ++ assert (i0 = i) by (destruct i0, i; simpl in E; congruence). subst i0.
              rewrite Hstep, status_of_task_returns, E in Hst.
              injection Hst as <-.
              destruct (IHB i e') as [Hin Hrep]; [rewrite Hch; now left|].
              apply origin_app. right; right; right; left. now split.
           ++ eapply Hother; [exact Hstep|]. destruct i0, i; simpl in E; congruence.
        -- destruct (TaskId_eqb i0 i) eqn:E.
           ++ assert (i0 = i) by (destruct i0, i; simpl in E; congruence). subst i0.
              rewrite Hstep, status_of_task_returns, E in Hst.
              injection Hst as ->.
              destruct Hres as [Hres|[Hres|Hres]].
              ** destruct (IHA e (or_intror (eq_sym Hres))) as [H|[H|H]].
                 --- now left.
                 --- right; now left.
                 --- right; right; left. apply in_or_app. now left.
              ** discriminate.
              ** right; right; right; right. exists sch.
                 split; [apply in_or_app; right; now left|now symmetry].
           ++ eapply Hother; [exact Hstep|]. destruct i0, i; simpl in E; congruence.
Qed.

(** X17. Every error that [Run] returns has a known origin. It is the
    error one of the two tasks returned, and that error is either
    [context.Canceled], or the error of the caller's context, or a
    failure of [net.Listen] or [Accept] of that task's listener that
    passed the test of its accept goroutine (so not the intentional
    close), or what closing that listener returned in [Shutdown].
    Nothing else -- no handler panic, no request, no failure of the
    random source -- ever becomes the result of [Run]. *)
Theorem Run_error_has_an_origin (sv : Server) (parent : Context) (e0 : Entropy)
    (fs : FileSystem) (tr : list Event) (e : error) :
  wf_context parent ->
  Run_returns (run (Run_start sv parent e0 fs) tr) = Some (Some e) ->
  exists i,
    status (task (run (Run_start sv parent e0 fs) tr) i) = Returned (Some e) /\
    origin parent tr i e.
Proof.
  intros Hwf Hrun.
  assert (Hr : reachable (run (Run_start sv parent e0 fs) tr))
    by (apply reachable_run, reachable_start, Hwf).
  destruct (aggregate_invariant Hr) as [H1 _].
  destruct (@provenance sv parent e0 fs tr Hwf) as (_ & _ & HC).
  unfold Run_returns in Hrun.
  destruct (crashed _); [discriminate|].
  destruct (status (http _)); try discriminate.
  destruct (status (https _)); try discriminate.
  injection Hrun as Hg.
  destruct (H1 e Hg) as [i Hi]. exists i. split; [exact Hi|]. now apply HC.
Qed.

(** [main] when the second listener cannot bind. *)
Lemma Run_error_has_an_origin_witness :
  exists i,
    origin Background
      [LasStart HTTPS; Bind HTTPS (Some address_in_use);
       Select HTTPS sched0; Select HTTP sched0] i address_in_use.
Proof.
  destruct (@Run_error_has_an_origin main_server Background sevens no_files
              [LasStart HTTPS; Bind HTTPS (Some address_in_use);
               Select HTTPS sched0; Select HTTP sched0] address_in_use)
    as (i & _ & H).
  - discriminate.
  - reflexivity.
  - exists i. exact H.
Defined.
